(** * Mackup application profiles: backup, restore and uninstall

    A shallow embedding of [mackup/application.py] (class
    [ApplicationProfile]) together with the part of the operating system
    it talks to: a file system with regular files, directories, symbolic
    links and special nodes, the [os.path] predicates, [pathlib]'s lexical
    path operations and [Path.resolve].

    The three operations are written in a small state-and-exception monad
    over a [world] made of the file system, the answers still waiting on
    standard input and the trace of everything the program did (lines
    printed, questions asked, calls to [utils.copy], [utils.delete] and
    [utils.link]). *)

From Stdlib Require Import String Ascii List Bool Arith Lia.
Import ListNotations.
Open Scope string_scope.
Open Scope list_scope.

(** ** Paths *)

Module Paths.

(** A path is the list of its components below the root, as in
    [PurePosixPath.parts] without the leading ["/"].  As in [pathlib], a
    component may be [".."]: nothing is collapsed lexically. *)
Definition path := list string.

Definition path_eq_dec : forall p q : path, {p = q} + {p <> q} :=
  list_eq_dec string_dec.

Definition path_eqb (p q : path) : bool :=
  if path_eq_dec p q then true else false.

(** [strip_prefix base p] is [Some rest] exactly when [p = base ++ rest]. *)
Fixpoint strip_prefix (base p : path) : option path :=
  match base, p with
  | [], _ => Some p
  | _ :: _, [] => None
  | b :: base', c :: p' => if String.eqb b c then strip_prefix base' p' else None
  end.

Definition is_prefix (base p : path) : bool :=
  match strip_prefix base p with Some _ => true | None => false end.

(** [PurePath.relative_to]: purely lexical, [None] stands for the
    [ValueError] raised when [base] is not a prefix of [p]. *)
Definition relative_to (p base : path) : option path := strip_prefix base p.

(** All prefixes of [p] that are strictly shorter than [p], the root
    ([[]]) included. *)
Fixpoint proper_prefixes (p : path) : list path :=
  match p with
  | [] => []
  | c :: p' => [] :: map (cons c) (proper_prefixes p')
  end.

Definition slash : ascii := "/"%char.
Definition nl : string := String (ascii_of_nat 10) EmptyString.

(** Cut a string at every ["/"]. *)
Fixpoint split_slash (s : string) : list string :=
  match s with
  | EmptyString => [EmptyString]
  | String c rest =>
      if Ascii.eqb c slash then EmptyString :: split_slash rest
      else match split_slash rest with
           | [] => [String c EmptyString]
           | w :: ws => String c w :: ws
           end
  end.

Definition is_absolute (s : string) : bool :=
  match s with
  | String c _ => Ascii.eqb c slash
  | EmptyString => false
  end.

(** [PurePosixPath(s)]: empty components and ["."] are dropped, [".."] is
    kept. *)
Definition parse_path (s : string) : bool * path :=
  (is_absolute s,
   filter (fun c => negb (String.eqb c EmptyString) && negb (String.eqb c "."))
          (split_slash s)).

(** [base / s]: an absolute right operand replaces the left one. *)
Definition joinpath (base : path) (s : string) : path :=
  let '(absolute, parts) := parse_path s in
  if absolute then parts else base ++ parts.

(** [str] of a relative path. *)
Definition str_rel (p : path) : string :=
  match p with
  | [] => "."
  | _ => String.concat "/" p
  end.

(** [str] of an absolute path. *)
Definition str (p : path) : string := "/" ++ String.concat "/" p.

End Paths.
Export Paths.

(** ** The file system *)

Module FS.

Inductive node : Type :=
| File (data : string)
| Dir
| Symlink (target : path)   (* the target is an absolute path *)
| Special.                  (* FIFO, socket, device node *)

(** The file system maps every absolute path to the node stored there.
    Hard links are not modelled: two paths name the same file exactly
    when they resolve to the same path. *)
Definition filesystem := path -> option node.

(** The root always exists and is a directory. *)
Definition lookup (f : filesystem) (p : path) : option node :=
  match p with
  | [] => Some Dir
  | _ => f p
  end.

(** One pass of [os.path.realpath] over the components still to be
    resolved: it stops at the first symbolic link it meets. *)
Inductive walked : Type :=
| Done (resolved : path)
| AtLink (link : path) (target : path) (rest : path).

Fixpoint walk (f : filesystem) (resolved rest : path) : walked :=
  match rest with
  | [] => Done resolved
  | c :: rest' =>
      if String.eqb c ".." then walk f (removelast resolved) rest'
      else match f (resolved ++ [c]) with
           | Some (Symlink t) => AtLink (resolved ++ [c]) t rest'
           | _ => walk f (resolved ++ [c]) rest'
           end
  end.

(** Number of symbolic links followed before a path is given up as a
    loop (SYMLOOP_MAX). *)
Definition SYMLOOP_MAX : nat := 40.

Fixpoint resolve_from (links : nat) (f : filesystem) (resolved rest : path)
  : path :=
  match walk f resolved rest with
  | Done r => r
  | AtLink l t rest' =>
      match links with
      | O => l ++ rest'             (* a loop: left unresolved *)
      | S n => resolve_from n f [] (t ++ rest')
      end
  end.

(** [Path.resolve()] (non strict): follows every symbolic link, collapses
    [".."], keeps going through components that do not exist. *)
Definition resolve (f : filesystem) (p : path) : path :=
  resolve_from SYMLOOP_MAX f [] p.

(** The place [lstat] looks at: links are followed in the directory part
    only. *)
Definition lresolve (f : filesystem) (p : path) : path :=
  match p with
  | [] => []
  | _ => if String.eqb (last p EmptyString) ".." then resolve f p
         else resolve f (removelast p) ++ [last p EmptyString]
  end.

(** [os.stat]: [None] when nothing is there, also for a dangling link or
    a loop. *)
Definition stat (f : filesystem) (p : path) : option node :=
  match lookup f (resolve f p) with
  | Some (Symlink _) => None
  | n => n
  end.

Definition lstat (f : filesystem) (p : path) : option node :=
  lookup f (lresolve f p).

(** *** [os.path] *)

Definition exists_ (f : filesystem) (p : path) : bool :=
  match stat f p with Some _ => true | None => false end.

Definition isfile (f : filesystem) (p : path) : bool :=
  match stat f p with Some (File _) => true | _ => false end.

Definition isdir (f : filesystem) (p : path) : bool :=
  match stat f p with Some Dir => true | _ => false end.

Definition islink (f : filesystem) (p : path) : bool :=
  match lstat f p with Some (Symlink _) => true | _ => false end.

End FS.
Export FS.

(** ** The world and the monad of the program *)

Module World.

(** Everything the program does that can be observed from outside, in
    the order in which it happens.  A file operation is recorded when it
    is called, whether or not it then succeeds. *)
Inductive event : Type :=
| Output (line : string)
| Confirm (question : string) (answer : bool)
| Copy (src dst : path)
| Delete (target : path)
| Link (target link_to : path).

Inductive exn : Type :=
| ValueError (msg : string)
| OSError (msg : string)
| PatternError (pattern : string)   (* a pattern that [Path.glob] refuses *)
| Failed (call : event).            (* a file operation that failed loudly *)

Record world : Type := mkWorld {
  fs : filesystem;
  stdin : list bool;        (* the answers the user will still type *)
  trace : list event
}.

Inductive outcome (A : Type) : Type :=
| Return (a : A) (w : world)
| Raise (e : exn) (w : world).
Arguments Return {A} a w.
Arguments Raise {A} e w.

Definition M (A : Type) : Type := world -> outcome A.

Definition ret {A} (a : A) : M A := fun w => Return a w.

Definition raise {A} (e : exn) : M A := fun w => Raise e w.

Definition bind {A B} (m : M A) (k : A -> M B) : M B :=
  fun w => match m w with
           | Return a w' => k a w'
           | Raise e w' => Raise e w'
           end.

Definition get_fs : M filesystem := fun w => Return (fs w) w.

Definition set_fs (f : filesystem) : M unit :=
  fun w => Return tt (mkWorld f (stdin w) (trace w)).

Definition emit (e : event) : M unit :=
  fun w => Return tt (mkWorld (fs w) (stdin w) (trace w ++ [e])).

Definition print (line : string) : M unit := emit (Output line).

(** A computation that can only fail, run inside the monad. *)
Definition lift {A} (r : exn + A) : M A :=
  match r with
  | inl e => raise e
  | inr a => ret a
  end.

(** The final world of a run, however it ended. *)
Definition final {A} (o : outcome A) : world :=
  match o with
  | Return _ w => w
  | Raise _ w => w
  end.

(** A [for] loop over a list. *)
Fixpoint for_each {A} (body : A -> M unit) (l : list A) : M unit :=
  match l with
  | [] => ret tt
  | a :: l' => bind (body a) (fun _ => for_each body l')
  end.

End World.
Export World.

Declare Scope monad_scope.
Delimit Scope monad_scope with monad.
Notation "x <- m ;; k" := (bind m (fun x => k))
  (at level 61, m at next level, right associativity) : monad_scope.
Notation "m ;; k" := (bind m (fun _ => k))
  (at level 61, right associativity) : monad_scope.
Open Scope monad_scope.

(** ** [os.path.samefile] *)

(** [os.path.samefile] stats both paths, and raises when one of them
    cannot be stat'ed. *)
Definition samefile (f : filesystem) (a b : path) : exn + bool :=
  match stat f a, stat f b with
  | Some _, Some _ => inr (path_eqb (resolve f a) (resolve f b))
  | None, _ => inl (OSError ("No such file or directory: " ++ str a))
  | _, None => inl (OSError ("No such file or directory: " ++ str b))
  end.

(** ** The helpers of [mackup.utils] *)

Module Utils.

(** Every proper ancestor of [q] is a directory or can be created. *)
Definition ancestors_ok (f : filesystem) (q : path) : bool :=
  forallb (fun a => match lookup f a with
                    | Some Dir | None => true
                    | _ => false
                    end) (proper_prefixes q).

(** [f] with the missing ancestors of [q] created as directories, and the
    subtree at [q] replaced by [content] (indexed by the path below
    [q]). *)
Definition place (f : filesystem) (q : path) (content : path -> option node)
  : filesystem :=
  fun x =>
    match strip_prefix q x with
    | Some rest => content rest
    | None =>
        if is_prefix x q
        then match f x with None => Some Dir | n => n end
        else f x
    end.

(** Modelled from the spec: [utils.copy] is not part of the sources.
    "copy(src, dst): recursive, preserves directory structure; must
    create intermediate directories at dst as needed; must fail loudly
    rather than partially succeed silently."  The source is followed
    through links, the destination is written where [lstat] looks, what
    was below the destination is replaced; the copy fails when the
    source is not a regular file or a directory, or when an ancestor of
    the destination is not a directory. *)
Definition copy_fs (f : filesystem) (src dst : path) : option filesystem :=
  let q := lresolve f dst in
  if ancestors_ok f q then
    match stat f src with
    | Some (File d) =>
        Some (place f q (fun rest => match rest with
                                     | [] => Some (File d)
                                     | _ => None
                                     end))
    | Some Dir =>
        let s := resolve f src in
        Some (place f q (fun rest => match rest with
                                     | [] => Some Dir
                                     | _ => f (s ++ rest)
                                     end))
    | _ => None
    end
  else None.

(** Modelled from the spec: [utils.delete] is not part of the sources.
    "delete(path): recursive removal of file, directory, or a symlink
    itself (never follows a symlink to delete its target)." *)
Definition delete_fs (f : filesystem) (p : path) : filesystem :=
  let q := lresolve f p in
  fun x => if is_prefix q x then None else f x.

(** Modelled from the spec: [utils.link] is not part of the sources.
    "link(target, linkPath): creates a symbolic link at linkPath pointing
    to target; fails if linkPath already exists".  Missing directories
    above the link are created, as for [copy]. *)
Definition link_fs (f : filesystem) (target link_to : path)
  : option filesystem :=
  let q := lresolve f link_to in
  match lookup f q with
  | Some _ => None
  | None =>
      if ancestors_ok f q
      then Some (place f q (fun rest => match rest with
                                        | [] => Some (Symlink target)
                                        | _ => f (q ++ rest)
                                        end))
      else None
  end.

Definition copy (src dst : path) : M unit :=
  emit (Copy src dst) ;;
  f <- get_fs ;;
  match copy_fs f src dst with
  | Some f' => set_fs f'
  | None => raise (Failed (Copy src dst))
  end.

Definition delete (p : path) : M unit :=
  emit (Delete p) ;;
  f <- get_fs ;;
  set_fs (delete_fs f p).

Definition link (target link_to : path) : M unit :=
  emit (Link target link_to) ;;
  f <- get_fs ;;
  match link_fs f target link_to with
  | Some f' => set_fs f'
  | None => raise (Failed (Link target link_to))
  end.

(** Modelled from the spec: [utils.confirm] is not part of the sources.
    "Synchronous prompt returning a boolean; must default to "no" on
    non-interactive input (end of input stream)". *)
Definition confirm (question : string) : M bool :=
  fun w =>
    match stdin w with
    | [] => Return false
              (mkWorld (fs w) [] (trace w ++ [Confirm question false]))
    | a :: rest => Return a
              (mkWorld (fs w) rest (trace w ++ [Confirm question a]))
    end.

End Utils.

(** ** [ApplicationProfile] *)

(** The fields of an [ApplicationProfile]: [self.mackup.mackup_folder],
    the two entries of [self.app] that are read, and the three options.
    [configuration_files] is a Python set: the list gives its elements
    in the order in which the set is iterated. *)
Record ApplicationProfile : Type := mkProfile {
  mackup_folder : path;
  configuration_files : list string;
  enable_glob : bool;
  dry_run : bool;
  strategy : string;
  verbose : bool
}.

(** A resolved entry: [(source, target, relative name)]. *)
Definition entry : Type := (path * path * string)%type.

(** Gather the results of a comprehension whose parts may raise. *)
Fixpoint collect {A} (l : list (exn + list A)) : exn + list A :=
  match l with
  | [] => inr []
  | inl e :: _ => inl e
  | inr xs :: l' =>
      match collect l' with
      | inl e => inl e
      | inr ys => inr (xs ++ ys)
      end
  end.

Section Profile.

(** The environment of a run: [os.environ["HOME"]], [Path.glob] (its
    matches are given relative to the directory that is globbed, since
    [pathlib] builds every match by joining onto that directory; [None]
    is a pattern it refuses, such as an empty or an absolute one) and
    [utils.can_file_be_synced_on_current_platform]. *)
Variable HOME : path.
Variable glob : filesystem -> path -> string -> option (list path).
Variable can_sync : path -> bool.

Variable self : ApplicationProfile.

(** The triple built for one glob match [filename]. *)
Definition glob_entry (f : filesystem) (source target filename : path)
  : exn + list entry :=
  match relative_to filename source with
  | Some rel =>
      inr [(resolve f filename, resolve f (target ++ rel), str_rel rel)]
  | None =>
      inl (ValueError (str filename ++ " is not in the subpath of "
                         ++ str source))
  end.

Definition get_files_on (f : filesystem) (source target : path)
  : exn + list entry :=
  let file_paths := configuration_files self in
  if enable_glob self then
    collect
      (map (fun file_path =>
              match glob f source file_path with
              | None => inl (PatternError file_path)
              | Some matches =>
                  collect (map (fun rel =>
                                  glob_entry f source target (source ++ rel))
                               matches)
              end)
           file_paths)
  else
    inr (map (fun file_path =>
                (resolve f (joinpath source file_path),
                 resolve f (joinpath target file_path),
                 file_path))
             file_paths).

Definition get_files (source target : path) : M (list entry) :=
  f <- get_fs ;;
  lift (get_files_on f source target).

(** *** Backup *)

Definition invalid_strategy : string := "Invalid strategy " ++ strategy self.

Definition unsupported_file (p : path) : string :=
  "Unsupported file: " ++ str p.

Definition backup_file (home_filepath mackup_filepath : path) : M unit :=
  if String.eqb (strategy self) "link" then
    Utils.copy home_filepath mackup_filepath ;;
    Utils.delete home_filepath ;;
    Utils.link mackup_filepath home_filepath
  else if String.eqb (strategy self) "copy" then
    Utils.copy home_filepath mackup_filepath
  else
    raise (ValueError invalid_strategy).

(** [os.path.islink(home) and (os.path.isfile(mackup) or
    os.path.isdir(mackup)) and os.path.samefile(home, mackup)] *)
Definition already_backed_up (f : filesystem) (home mackup : path)
  : exn + bool :=
  if islink f home && (isfile f mackup || isdir f mackup)
  then samefile f home mackup
  else inr false.

(** The condition of the outer [if] of [backup]. *)
Definition backup_guard (f : filesystem) (home mackup : path) : exn + bool :=
  if isfile f home || isdir f home then
    match already_backed_up f home mackup with
    | inl e => inl e
    | inr b => inr (negb b)
    end
  else inr false.

(** The word used for a path in a question; [None] is the
    "Unsupported file" case. *)
Definition file_type (f : filesystem) (p : path) : option string :=
  if isfile f p then Some "file"
  else if isdir f p then Some "folder"
  else if islink f p then Some "link"
  else None.

Definition backup_question (kind : string) (mackup_filepath : path) : string :=
  "A " ++ kind ++ " named " ++ str mackup_filepath
    ++ " already exists in the backup." ++ nl
    ++ "Are you sure that you want to replace it?".

Definition backing_up_msg (e : entry) : string :=
  let '(home_filepath, mackup_filepath, filename) := e in
  if verbose self then
    "Backing up" ++ nl ++ "  " ++ str home_filepath ++ nl ++ "  to" ++ nl
      ++ "  " ++ str mackup_filepath ++ " ..."
  else "Backing up " ++ filename ++ " ...".

Definition already_backed_up_msg (home_filepath mackup_filepath : path)
  : string :=
  "Doing nothing" ++ nl ++ "  " ++ str home_filepath ++ nl ++ "  "
    ++ "is already backed up to" ++ nl ++ "  " ++ str mackup_filepath.

Definition broken_link_msg (home_filepath : path) : string :=
  "Doing nothing" ++ nl ++ "  " ++ str home_filepath ++ nl ++ "  "
    ++ "is a broken link, you might want to fix it.".

Definition does_not_exist_msg (p : path) : string :=
  "Doing nothing" ++ nl ++ "  " ++ str p ++ nl ++ "  does not exist".

(** The body of the loop of [backup]. *)
Definition backup_entry (e : entry) : M unit :=
  let '(home_filepath, mackup_filepath, filename) := e in
  f <- get_fs ;;
  go <- lift (backup_guard f home_filepath mackup_filepath) ;;
  if go then
    print (backing_up_msg e) ;;
    if dry_run self then ret tt
    else if exists_ f mackup_filepath then
      match file_type f mackup_filepath with
      | None => raise (ValueError (unsupported_file mackup_filepath))
      | Some kind =>
          yes <- Utils.confirm (backup_question kind mackup_filepath) ;;
          if yes then
            Utils.delete mackup_filepath ;;
            backup_file home_filepath mackup_filepath
          else ret tt
      end
    else backup_file home_filepath mackup_filepath
  else if verbose self then
    if exists_ f home_filepath then
      print (already_backed_up_msg home_filepath mackup_filepath)
    else if islink f home_filepath then
      print (broken_link_msg home_filepath)
    else print (does_not_exist_msg home_filepath)
  else ret tt.

Definition backup : M unit :=
  entries <- get_files HOME (mackup_folder self) ;;
  for_each backup_entry entries.

(** *** Restore *)

Definition restore_file (mackup_filepath home_filepath : path) : M unit :=
  if String.eqb (strategy self) "link" then
    Utils.link mackup_filepath home_filepath
  else if String.eqb (strategy self) "copy" then
    Utils.copy mackup_filepath home_filepath
  else
    raise (ValueError invalid_strategy).

(** [os.path.islink(home) and os.path.exists(mackup) and
    os.path.samefile(mackup, home)] *)
Definition pointing_to_mackup (f : filesystem) (mackup home : path)
  : exn + bool :=
  if islink f home && exists_ f mackup
  then samefile f mackup home
  else inr false.

(** [utils.can_file_be_synced_on_current_platform(
    home_filepath.relative_to(home_folder))] *)
Definition supported (home_filepath : path) : exn + bool :=
  match relative_to home_filepath HOME with
  | Some rel => inr (can_sync rel)
  | None =>
      inl (ValueError (str home_filepath ++ " is not in the subpath of "
                         ++ str HOME))
  end.

(** The condition of the outer [if] of [restore]; its three parts are
    computed in this order before the test. *)
Definition restore_guard (f : filesystem) (mackup home : path) : exn + bool :=
  let file_or_dir_exists := isfile f mackup || isdir f mackup in
  match pointing_to_mackup f mackup home with
  | inl e => inl e
  | inr pointing =>
      match supported home with
      | inl e => inl e
      | inr sup => inr (file_or_dir_exists && negb pointing && sup)
      end
  end.

Definition restore_question (kind filename : string) : string :=
  "You already have a " ++ kind ++ " named " ++ filename
    ++ " in your home." ++ nl
    ++ "Do you want to replace it with your backup?".

Definition restoring_msg (e : entry) : string :=
  let '(mackup_filepath, home_filepath, filename) := e in
  if verbose self then
    "Restoring" ++ nl ++ "  linking " ++ str home_filepath ++ nl
      ++ "  to      " ++ str mackup_filepath ++ " ..."
  else "Restoring " ++ filename ++ " ...".

Definition already_linked_msg (mackup_filepath home_filepath : path)
  : string :=
  "Doing nothing" ++ nl ++ "  " ++ str mackup_filepath ++ nl
    ++ "  already linked by" ++ nl ++ "  " ++ str home_filepath.

(** The body of the loop of [restore]. *)
Definition restore_entry (e : entry) : M unit :=
  let '(mackup_filepath, home_filepath, filename) := e in
  f <- get_fs ;;
  go <- lift (restore_guard f mackup_filepath home_filepath) ;;
  if go then
    print (restoring_msg e) ;;
    if dry_run self then ret tt
    else if exists_ f home_filepath then
      match file_type f home_filepath with
      | None => raise (ValueError (unsupported_file mackup_filepath))
      | Some kind =>
          yes <- Utils.confirm (restore_question kind filename) ;;
          if yes then
            Utils.delete home_filepath ;;
            restore_file mackup_filepath home_filepath
          else ret tt
      end
    else restore_file mackup_filepath home_filepath
  else if verbose self then
    if exists_ f home_filepath then
      print (already_linked_msg mackup_filepath home_filepath)
    else if islink f home_filepath then
      print (broken_link_msg home_filepath)
    else print (does_not_exist_msg mackup_filepath)
  else ret tt.

Definition restore : M unit :=
  entries <- get_files (mackup_folder self) HOME ;;
  for_each restore_entry entries.

(** *** Uninstall *)

Definition reverting_msg (e : entry) : string :=
  let '(mackup_filepath, home_filepath, filename) := e in
  if verbose self then
    "Reverting " ++ str mackup_filepath ++ nl ++ "  at "
      ++ str home_filepath ++ " ..."
  else "Reverting " ++ filename ++ " ...".

Definition nothing_to_revert_msg (mackup_filepath : path) : string :=
  "Doing nothing, " ++ str mackup_filepath ++ " does not exist".

(** The body of the loop of [uninstall]. *)
Definition uninstall_entry (e : entry) : M unit :=
  let '(mackup_filepath, home_filepath, filename) := e in
  f <- get_fs ;;
  if isfile f mackup_filepath || isdir f mackup_filepath then
    if exists_ f home_filepath then
      print (reverting_msg e) ;;
      if dry_run self then ret tt
      else
        Utils.delete home_filepath ;;
        Utils.copy mackup_filepath home_filepath
    else ret tt
  else if verbose self then
    print (nothing_to_revert_msg mackup_filepath)
  else ret tt.

Definition uninstall : M unit :=
  entries <- get_files (mackup_folder self) HOME ;;
  for_each uninstall_entry entries.

(** What the docstring of [uninstall] describes: the copy is made
    whenever the file exists in the backup, after the file in the home,
    if there is one, has been deleted. *)
Definition uninstall_entry_documented (e : entry) : M unit :=
  let '(mackup_filepath, home_filepath, filename) := e in
  f <- get_fs ;;
  if isfile f mackup_filepath || isdir f mackup_filepath then
    (if exists_ f home_filepath then Utils.delete home_filepath else ret tt) ;;
    Utils.copy mackup_filepath home_filepath
  else ret tt.

End Profile.

(** *** One call of one of the three entry points *)

Inductive operation : Type := OpBackup | OpRestore | OpUninstall.

Definition run (HOME : path)
  (glob : filesystem -> path -> string -> option (list path))
  (can_sync : path -> bool) (call : ApplicationProfile * operation) : M unit :=
  match snd call with
  | OpBackup => backup HOME glob (fst call)
  | OpRestore => restore HOME glob can_sync (fst call)
  | OpUninstall => uninstall HOME glob (fst call)
  end.

(** Calls made one after the other; the first exception ends the
    process. *)
Definition run_all HOME glob can_sync
  (calls : list (ApplicationProfile * operation)) : M unit :=
  for_each (run HOME glob can_sync) calls.

(** * Properties *)

(** ** Reading runs *)

Definition is_file_operation (e : event) : bool :=
  match e with
  | Copy _ _ | Delete _ | Link _ _ => true
  | Output _ | Confirm _ _ => false
  end.

(** The calls to [utils.copy], [utils.delete] and [utils.link] of a
    trace. *)
Definition file_operations (t : list event) : list event :=
  filter is_file_operation t.

Definition is_question (e : event) : bool :=
  match e with
  | Confirm _ _ => true
  | _ => false
  end.

(** [w'] has the file system of [w] and no more file operations than
    [w]. *)
Definition untouched (w w' : world) : Prop :=
  fs w' = fs w /\ file_operations (trace w') = file_operations (trace w).

Arguments backing_up_msg : simpl never.
Arguments restoring_msg : simpl never.
Arguments reverting_msg : simpl never.
Arguments backup_question : simpl never.
Arguments restore_question : simpl never.
Arguments unsupported_file : simpl never.
Arguments invalid_strategy : simpl never.
Arguments already_backed_up_msg : simpl never.
Arguments broken_link_msg : simpl never.
Arguments does_not_exist_msg : simpl never.
Arguments already_linked_msg : simpl never.
Arguments nothing_to_revert_msg : simpl never.

(** ** When an entry reaches its file action *)

(** The entry gets as far as [backup_file]: the outer condition holds,
    the run is not a dry run, and either nothing is in the backup yet or
    the user answers yes to the question. *)
Definition backup_acts (self : ApplicationProfile) (w : world) (e : entry)
  : bool :=
  let '(home_filepath, mackup_filepath, _) := e in
  match backup_guard (fs w) home_filepath mackup_filepath with
  | inr true =>
      negb (dry_run self)
      && (if exists_ (fs w) mackup_filepath
          then match file_type (fs w) mackup_filepath with
               | Some _ => hd false (stdin w)
               | None => false
               end
          else true)
  | _ => false
  end.

(** The same for [restore] and [restore_file]. *)
Definition restore_acts (HOME : path) (can_sync : path -> bool)
    (self : ApplicationProfile) (w : world) (e : entry) : bool :=
  let '(mackup_filepath, home_filepath, _) := e in
  match restore_guard HOME can_sync (fs w) mackup_filepath home_filepath with
  | inr true =>
      negb (dry_run self)
      && (if exists_ (fs w) home_filepath
          then match file_type (fs w) home_filepath with
               | Some _ => hd false (stdin w)
               | None => false
               end
          else true)
  | _ => false
  end.

(** Some entry of the loop reaches its file action, each entry being
    looked at in the world its predecessors left. *)
Fixpoint some_entry_acts (acts : world -> entry -> bool)
    (body : entry -> M unit) (entries : list entry) (w : world) : bool :=
  match entries with
  | [] => false
  | e :: rest =>
      if acts w e then true
      else match body e w with
           | Return _ w' => some_entry_acts acts body rest w'
           | Raise _ _ => false
           end
  end.

(** ** Resolved paths *)

Definition not_link (o : option node) : bool :=
  match o with
  | Some (Symlink _) => false
  | _ => true
  end.


(** Below [base], no component of [rest] is [".."] and none leads to a
    symbolic link. *)
Fixpoint no_links_from (f : filesystem) (base rest : path) : bool :=
  match rest with
  | [] => true
  | c :: rest' =>
      negb (String.eqb c "..")
      && not_link (f (base ++ [c]))
      && no_links_from f (base ++ [c]) rest'
  end.

(** [p] is a resolved path of [f], as [Path.resolve] returns them. *)
Definition plain (f : filesystem) (p : path) : bool := no_links_from f [] p.

(** Outside [q], [f'] is [f] with, at most, missing directories
    created. *)
Definition grows_outside (q : path) (f f' : filesystem) : Prop :=
  forall x, is_prefix q x = false ->
            f' x = f x \/ (f x = None /\ f' x = Some Dir).

(** ** Names that stay below their root *)



(** ** A small machine *)

Module Scenario.

Definition nothing : filesystem := fun _ => None.

Definition put (p : path) (n : node) (f : filesystem) : filesystem :=
  fun x => if path_eqb x p then Some n else f x.

Definition HOME : path := ["home"; "u"].
Definition shared : path := ["shared"; "Mackup"].
Definition home_vimrc : path := ["home"; "u"; ".vimrc"].
Definition shared_vimrc : path := ["shared"; "Mackup"; ".vimrc"].

(** The directories only. *)
Definition bare : filesystem :=
  put ["home"] Dir (put HOME Dir (put ["shared"] Dir (put shared Dir nothing))).

(** [.vimrc] in the home only, in the backup only, in both. *)
Definition only_home : filesystem := put home_vimrc (File "A") bare.
Definition only_backup : filesystem := put shared_vimrc (File "A") bare.
Definition both : filesystem := put home_vimrc (File "B") only_backup.

(** A FIFO where the other copy of [.vimrc] should be. *)
Definition fifo_in_backup : filesystem := put shared_vimrc Special only_home.
Definition fifo_in_home : filesystem := put home_vimrc Special only_backup.


Definition no_glob : filesystem -> path -> string -> option (list path) :=
  fun _ _ _ => Some [].

Definition everywhere : path -> bool := fun _ => true.

Definition profile (files : list string) (dry : bool) (strat : string)
  : ApplicationProfile :=
  mkProfile shared files false dry strat false.

Definition typing (answers : list bool) (f : filesystem) : world :=
  mkWorld f answers [].

(** [.vimrc] in the home is a link to a file outside the home. *)
Definition linked_outside : filesystem :=
  put home_vimrc (Symlink ["etc"; "vimrc"])
    (put ["etc"; "vimrc"] (File "E") (put ["etc"] Dir only_backup)).

(** [.vimrc] as a ["link"] backup leaves it: a link in the home to the
    file in the backup. *)
Definition linked : filesystem :=
  put home_vimrc (Symlink shared_vimrc) only_backup.

End Scenario.

(** The exception a run ended on, if it did. *)
Definition raised {A} (o : outcome A) : option exn :=
  match o with
  | Raise e _ => Some e
  | Return _ _ => None
  end.

(** ** Kinds of events, and what a run adds to the trace *)

Definition is_output (e : event) : bool :=
  match e with Output _ => true | _ => false end.

Definition is_delete (e : event) : bool :=
  match e with Delete _ => true | _ => false end.

Definition is_link_call (e : event) : bool :=
  match e with Link _ _ => true | _ => false end.

Definition is_copy (e : event) : bool :=
  match e with Copy _ _ => true | _ => false end.

(** The lines printed, in order. *)
Definition printed (t : list event) : list event := filter is_output t.

(** Everything but the lines printed. *)
Definition acted (t : list event) : list event :=
  filter (fun e => negb (is_output e)) t.

(** [w'] continues the trace of [w] with events that are all
    [allowed]. *)
Definition adds_only (allowed : event -> bool) (w w' : world) : Prop :=
  exists added, trace w' = trace w ++ added /\ forallb allowed added = true.

(** Every answer still to come is "no". *)
Definition all_no (answers : list bool) : bool := forallb negb answers.

(** The same profile with another [dry_run] or [verbose] option. *)
Definition with_dry_run (b : bool) (self : ApplicationProfile)
  : ApplicationProfile :=
  mkProfile (mackup_folder self) (configuration_files self)
    (enable_glob self) b (strategy self) (verbose self).

Definition with_verbose (b : bool) (self : ApplicationProfile)
  : ApplicationProfile :=
  mkProfile (mackup_folder self) (configuration_files self)
    (enable_glob self) (dry_run self) (strategy self) b.

(** [resolve_from] comes to an end without giving a path up as a
    loop. *)
Fixpoint resolves_within (links : nat) (f : filesystem) (resolved rest : path)
  : bool :=
  match walk f resolved rest with
  | Done _ => true
  | AtLink _ t rest' =>
      match links with
      | O => false
      | S n => resolves_within n f [] (t ++ rest')
      end
  end.

Definition resolvable (f : filesystem) (p : path) : bool :=
  resolves_within SYMLOOP_MAX f [] p.

(** Two worlds that differ at most in the lines printed. *)
Definition same_actions (w w' : world) : Prop :=
  fs w' = fs w /\ stdin w' = stdin w /\ acted (trace w') = acted (trace w).

(** Two runs that end the same way, in worlds that differ at most in the
    lines printed. *)
Definition same_outcome (o o' : outcome unit) : Prop :=
  match o, o' with
  | Return _ w, Return _ w' => same_actions w w'
  | Raise e w, Raise e' w' => e = e' /\ same_actions w w'
  | _, _ => False
  end.

(** * Proofs *)

(** Unfold the operations of the monad. *)
Ltac run_monad :=
  unfold bind, ret, raise, lift, get_fs, print, emit in *; simpl in *.

(** Split a goal along every test the program makes. *)
Ltac split_cases :=
  repeat match goal with
         | |- context [match ?x with _ => _ end] =>
             lazymatch x with
             | context [match _ with _ => _ end] => fail
             | _ => destruct x eqn:?; simpl in *
             end
         end.

(** Bring what is known of the answers to bear on [Hno]. *)
Ltac use_answers Hno :=
  repeat match goal with
         | H : stdin _ = _ |- _ => rewrite H in Hno; simpl in Hno
         end.

Ltac show_added :=
  first [ exists []; split; [symmetry; apply app_nil_r|reflexivity]
        | eexists; split;
          [simpl; rewrite <- ?app_assoc; simpl; reflexivity|reflexivity] ].

Ltac unfold_utils :=
  unfold Utils.copy, Utils.delete, Utils.link, Utils.confirm, set_fs in *.

Ltac same_printed :=
  split_cases; unfold printed; rewrite ?filter_app; simpl;
  rewrite ?app_nil_r, <- ?app_assoc; simpl; reflexivity.

Ltac same_acted Ht :=
  split_cases; unfold same_actions, acted in *; simpl;
  repeat split; trivial;
  rewrite ?filter_app, ?Ht; simpl; rewrite ?app_nil_r; reflexivity.
Lemma untouched_refl w : untouched w w.
Proof. split; reflexivity. Qed.

Lemma untouched_trans w1 w2 w3 :
  untouched w1 w2 -> untouched w2 w3 -> untouched w1 w3.
Proof.
  intros [F1 T1] [F2 T2]. split; congruence.
Qed.

Lemma untouched_print w line :
  untouched w (mkWorld (fs w) (stdin w) (trace w ++ [Output line])).
Proof.
  split; simpl; [reflexivity|].
  unfold file_operations. rewrite filter_app. simpl. apply app_nil_r.
Qed.

Lemma for_each_untouched {A} (body : A -> M unit) (l : list A) :
  (forall a w, In a l -> untouched w (final (body a w))) ->
  forall w, untouched w (final (for_each body l w)).
Proof.
  induction l as [|a l IH]; intros Hbody w; simpl.
  - apply untouched_refl.
  - unfold bind. specialize (Hbody a w (or_introl eq_refl)) as Ha.
    destruct (body a w) as [[] w'|e w']; simpl in *.
    + eapply untouched_trans; [exact Ha|].
      apply IH. intros b w0 Hb. apply Hbody. now right.
    + exact Ha.
Qed.

Lemma get_files_keeps_world glob self source target w :
  (exists l, get_files glob self source target w = Return l w)
  \/ (exists e, get_files glob self source target w = Raise e w).
Proof.
  unfold get_files, bind, get_fs, lift.
  destruct (get_files_on glob self (fs w) source target); [right|left]; eauto.
Qed.

Lemma backup_entry_dry_run self e w :
  dry_run self = true -> untouched w (final (backup_entry self e w)).
Proof.
  intros Hdry. destruct e as [[h m] name]. unfold backup_entry.
  run_monad.
  destruct (backup_guard (fs w) h m) as [x|[|]]; simpl;
    try apply untouched_refl.
  - rewrite Hdry. simpl. apply untouched_print.
  - destruct (verbose self); simpl; try apply untouched_refl.
    destruct (exists_ (fs w) h); [|destruct (islink (fs w) h)];
      apply untouched_print.
Qed.

Lemma restore_entry_dry_run HOME can_sync self e w :
  dry_run self = true ->
  untouched w (final (restore_entry HOME can_sync self e w)).
Proof.
  intros Hdry. destruct e as [[m h] name]. unfold restore_entry.
  run_monad.
  destruct (restore_guard HOME can_sync (fs w) m h) as [x|[|]]; simpl;
    try apply untouched_refl.
  - rewrite Hdry. simpl. apply untouched_print.
  - destruct (verbose self); simpl; try apply untouched_refl.
    destruct (exists_ (fs w) h); [|destruct (islink (fs w) h)];
      apply untouched_print.
Qed.

Lemma uninstall_entry_dry_run self e w :
  dry_run self = true -> untouched w (final (uninstall_entry self e w)).
Proof.
  intros Hdry. destruct e as [[m h] name]. unfold uninstall_entry.
  run_monad.
  destruct (isfile (fs w) m || isdir (fs w) m); simpl.
  - destruct (exists_ (fs w) h); simpl; [|apply untouched_refl].
    rewrite Hdry. simpl. apply untouched_print.
  - destruct (verbose self); simpl;
      [apply untouched_print|apply untouched_refl].
Qed.

Lemma run_dry_run HOME glob can_sync call w :
  dry_run (fst call) = true ->
  untouched w (final (run HOME glob can_sync call w)).
Proof.
  intros Hdry. destruct call as [self op]. simpl in Hdry.
  unfold run; simpl. destruct op.
  - unfold backup, bind.
    destruct (get_files_keeps_world glob self HOME (mackup_folder self) w)
      as [[l ->]|[e ->]]; simpl; [|apply untouched_refl].
    apply for_each_untouched. intros. now apply backup_entry_dry_run.
  - unfold restore, bind.
    destruct (get_files_keeps_world glob self (mackup_folder self) HOME w)
      as [[l ->]|[e ->]]; simpl; [|apply untouched_refl].
    apply for_each_untouched. intros. now apply restore_entry_dry_run.
  - unfold uninstall, bind.
    destruct (get_files_keeps_world glob self (mackup_folder self) HOME w)
      as [[l ->]|[e ->]]; simpl; [|apply untouched_refl].
    apply for_each_untouched. intros. now apply uninstall_entry_dry_run.
Qed.

(** ** Dry runs *)

(** C2. Whatever sequence of [backup], [restore] and [uninstall] calls is
    made with [dry_run] set, from whatever world: when the sequence ends
    (normally or on an exception) the file system is the one it started
    from, and no call to [utils.copy], [utils.delete] or [utils.link] has
    been made. *)
Theorem dry_run_never_mutates HOME glob can_sync
    (calls : list (ApplicationProfile * operation)) (w : world) :
  Forall (fun call => dry_run (fst call) = true) calls ->
  fs (final (run_all HOME glob can_sync calls w)) = fs w
  /\ file_operations (trace (final (run_all HOME glob can_sync calls w)))
     = file_operations (trace w).
Proof.
  intros Hall. unfold run_all.
  apply (for_each_untouched (run HOME glob can_sync) calls).
  intros call w0 Hin. apply run_dry_run.
  rewrite Forall_forall in Hall. now apply Hall.
Qed.

Lemma dry_run_never_mutates_witness :
  let calls := [(Scenario.profile [".vimrc"] true "link", OpBackup);
                (Scenario.profile [".vimrc"] true "copy", OpRestore);
                (Scenario.profile [".vimrc"] true "link", OpUninstall)] in
  let w := Scenario.typing [true; true] Scenario.both in
  Forall (fun call => dry_run (fst call) = true) calls
  /\ fs (final (run_all Scenario.HOME Scenario.no_glob Scenario.everywhere
                  calls w)) = fs w.
Proof.
  intros calls w.
  assert (H : Forall (fun call => dry_run (fst call) = true) calls)
    by (repeat constructor).
  split; [exact H|].
  exact (proj1 (dry_run_never_mutates Scenario.HOME Scenario.no_glob
                  Scenario.everywhere calls w H)).
Defined.

(** ** Declining a question *)

Lemma file_operations_app t t' :
  file_operations (t ++ t') = file_operations t ++ file_operations t'.
Proof. apply filter_app. Qed.

Lemma confirm_declined question w :
  hd false (stdin w) = false ->
  Utils.confirm question w =
  Return false (mkWorld (fs w) (tl (stdin w))
                  (trace w ++ [Confirm question false])).
Proof.
  unfold Utils.confirm. destruct (stdin w) as [|a rest]; simpl.
  - reflexivity.
  - intros ->. reflexivity.
Qed.

Lemma confirm_accepted question w :
  hd false (stdin w) = true ->
  Utils.confirm question w =
  Return true (mkWorld (fs w) (tl (stdin w))
                 (trace w ++ [Confirm question true])).
Proof.
  unfold Utils.confirm. destruct (stdin w) as [|a rest]; simpl.
  - discriminate.
  - intros ->. reflexivity.
Qed.

(** C4. During [backup], when the copy in the backup exists and the
    user's answer is no: the file system is left as it was (so neither
    the home copy nor the backup copy changes) and no file operation is
    called; and when the question was indeed reached, the loop goes on
    with the next file, one line and one question later. *)
Theorem backup_declined_changes_nothing self h m name rest w :
  exists_ (fs w) m = true ->
  hd false (stdin w) = false ->
  fs (final (backup_entry self (h, m, name) w)) = fs w
  /\ file_operations (trace (final (backup_entry self (h, m, name) w)))
     = file_operations (trace w)
  /\ forall kind,
       backup_guard (fs w) h m = inr true ->
       dry_run self = false ->
       file_type (fs w) m = Some kind ->
       for_each (backup_entry self) ((h, m, name) :: rest) w
       = for_each (backup_entry self) rest
           (mkWorld (fs w) (tl (stdin w))
              (trace w ++ [Output (backing_up_msg self (h, m, name));
                           Confirm (backup_question kind m) false])).
Proof.
  intros Hm Hno.
  assert (Hq : forall kind,
             backup_guard (fs w) h m = inr true ->
             dry_run self = false ->
             file_type (fs w) m = Some kind ->
             backup_entry self (h, m, name) w
             = Return tt
                 (mkWorld (fs w) (tl (stdin w))
                    (trace w ++ [Output (backing_up_msg self (h, m, name));
                                 Confirm (backup_question kind m) false]))).
  { intros kind Hg Hdry Hk. unfold backup_entry. run_monad.
    rewrite Hg. simpl. rewrite Hdry, Hm, Hk. simpl.
    rewrite confirm_declined by exact Hno. simpl.
    rewrite <- app_assoc. reflexivity. }
  split; [|split].
  - unfold backup_entry. run_monad.
    destruct (backup_guard (fs w) h m) as [x|[|]] eqn:Hg; simpl; trivial.
    + destruct (dry_run self) eqn:Hdry; simpl; trivial.
      rewrite Hm.
      destruct (file_type (fs w) m) as [kind|] eqn:Hk; simpl; trivial.
      rewrite confirm_declined by exact Hno. reflexivity.
    + destruct (verbose self); simpl; trivial.
      destruct (exists_ (fs w) h); [|destruct (islink (fs w) h)]; reflexivity.
  - unfold backup_entry. run_monad.
    destruct (backup_guard (fs w) h m) as [x|[|]] eqn:Hg; simpl; trivial.
    + destruct (dry_run self) eqn:Hdry; simpl.
      * rewrite file_operations_app. simpl. apply app_nil_r.
      * rewrite Hm.
        destruct (file_type (fs w) m) as [kind|] eqn:Hk; simpl.
        -- rewrite confirm_declined by exact Hno. simpl.
           rewrite !file_operations_app. simpl. now rewrite !app_nil_r.
        -- rewrite file_operations_app. simpl. apply app_nil_r.
    + destruct (verbose self); simpl; trivial.
      destruct (exists_ (fs w) h); [|destruct (islink (fs w) h)]; simpl;
        rewrite file_operations_app; simpl; apply app_nil_r.
  - intros kind Hg Hdry Hk. cbn [for_each]. unfold bind at 1.
    rewrite (Hq kind Hg Hdry Hk). reflexivity.
Qed.

Lemma backup_declined_changes_nothing_witness :
  let self := Scenario.profile [".vimrc"] false "link" in
  let w := Scenario.typing [false] Scenario.both in
  fs (final (backup_entry self
               (Scenario.home_vimrc, Scenario.shared_vimrc, ".vimrc") w))
  = Scenario.both
  /\ for_each (backup_entry self)
       [(Scenario.home_vimrc, Scenario.shared_vimrc, ".vimrc")] w
     = Return tt
         (mkWorld Scenario.both []
            [Output "Backing up .vimrc ...";
             Confirm (backup_question "file" Scenario.shared_vimrc) false]).
Proof.
  intros self w.
  destruct (backup_declined_changes_nothing self Scenario.home_vimrc
              Scenario.shared_vimrc ".vimrc" [] w eq_refl eq_refl)
    as (Hfs & _ & Hloop).
  split; [exact Hfs|].
  exact (Hloop "file" eq_refl eq_refl eq_refl).
Defined.

(** ** Nodes that are neither files, directories nor links *)

Lemma file_type_unsupported f p :
  isfile f p = false -> isdir f p = false -> islink f p = false ->
  file_type f p = None.
Proof.
  intros H1 H2 H3. unfold file_type. now rewrite H1, H2, H3.
Qed.

(** C7. Outside dry runs, when the path that a question is about exists
    and is neither a regular file, nor a directory, nor a link, [backup]
    (for the path in the backup) and [restore] (for the path in the home)
    raise [ValueError]: the exception leaves the loop, the files that
    follow are not looked at. *)
Theorem unsupported_node_aborts_run HOME can_sync self src dst name rest w :
  dry_run self = false ->
  exists_ (fs w) dst = true ->
  isfile (fs w) dst = false ->
  isdir (fs w) dst = false ->
  islink (fs w) dst = false ->
  (backup_guard (fs w) src dst = inr true ->
   for_each (backup_entry self) ((src, dst, name) :: rest) w
   = Raise (ValueError (unsupported_file dst))
       (mkWorld (fs w) (stdin w)
          (trace w ++ [Output (backing_up_msg self (src, dst, name))])))
  /\ (restore_guard HOME can_sync (fs w) src dst = inr true ->
      for_each (restore_entry HOME can_sync self) ((src, dst, name) :: rest) w
      = Raise (ValueError (unsupported_file src))
          (mkWorld (fs w) (stdin w)
             (trace w ++ [Output (restoring_msg self (src, dst, name))]))).
Proof.
  intros Hdry Hex Hf Hd Hl.
  pose proof (file_type_unsupported _ _ Hf Hd Hl) as Hk.
  split; intros Hg; cbn [for_each]; unfold bind at 1.
  - unfold backup_entry. run_monad.
    rewrite Hg. simpl. rewrite Hdry, Hex, Hk. reflexivity.
  - unfold restore_entry. run_monad.
    rewrite Hg. simpl. rewrite Hdry, Hex, Hk. reflexivity.
Qed.

Lemma unsupported_node_aborts_run_witness :
  let self := Scenario.profile [".vimrc"; ".zshrc"] false "link" in
  for_each (backup_entry self)
    [(Scenario.home_vimrc, Scenario.shared_vimrc, ".vimrc");
     (["home"; "u"; ".zshrc"], ["shared"; "Mackup"; ".zshrc"], ".zshrc")]
    (Scenario.typing [true] Scenario.fifo_in_backup)
  = Raise (ValueError "Unsupported file: /shared/Mackup/.vimrc")
      (mkWorld Scenario.fifo_in_backup [true]
         [Output "Backing up .vimrc ..."])
  /\
  for_each (restore_entry Scenario.HOME Scenario.everywhere self)
    [(Scenario.shared_vimrc, Scenario.home_vimrc, ".vimrc");
     (["shared"; "Mackup"; ".zshrc"], ["home"; "u"; ".zshrc"], ".zshrc")]
    (Scenario.typing [true] Scenario.fifo_in_home)
  = Raise (ValueError "Unsupported file: /shared/Mackup/.vimrc")
      (mkWorld Scenario.fifo_in_home [true]
         [Output "Restoring .vimrc ..."]).
Proof.
  intros self. split.
  - exact (proj1 (unsupported_node_aborts_run Scenario.HOME
                    Scenario.everywhere self Scenario.home_vimrc
                    Scenario.shared_vimrc ".vimrc" _
                    (Scenario.typing [true] Scenario.fifo_in_backup)
                    eq_refl eq_refl eq_refl eq_refl eq_refl) eq_refl).
  - exact (proj2 (unsupported_node_aborts_run Scenario.HOME
                    Scenario.everywhere self Scenario.shared_vimrc
                    Scenario.home_vimrc ".vimrc" _
                    (Scenario.typing [true] Scenario.fifo_in_home)
                    eq_refl eq_refl eq_refl eq_refl eq_refl) eq_refl).
Defined.

(** ** Uninstall *)

(** C1. Where the claim fails: the file is in the backup and nothing is
    at the home path.  [uninstall] then does nothing at all for this
    file (the world is returned as it was, nothing is copied), while the
    algorithm of its docstring makes the copy. *)
Theorem uninstall_skips_file_missing_from_home self m h name w :
  isfile (fs w) m || isdir (fs w) m = true ->
  exists_ (fs w) h = false ->
  uninstall_entry self (m, h, name) w = Return tt w
  /\ uninstall_entry_documented (m, h, name) w = Utils.copy m h w.
Proof.
  intros Hm Hh. unfold uninstall_entry, uninstall_entry_documented.
  run_monad. rewrite Hm, Hh. split; reflexivity.
Qed.

Lemma uninstall_skips_file_missing_from_home_witness :
  let self := Scenario.profile [".vimrc"] false "link" in
  let w := Scenario.typing [] Scenario.only_backup in
  uninstall_entry self (Scenario.shared_vimrc, Scenario.home_vimrc, ".vimrc") w
  = Return tt w
  /\ fs (final (uninstall_entry_documented
                  (Scenario.shared_vimrc, Scenario.home_vimrc, ".vimrc") w))
       Scenario.home_vimrc = Some (File "A").
Proof.
  intros self w.
  destruct (uninstall_skips_file_missing_from_home self Scenario.shared_vimrc
              Scenario.home_vimrc ".vimrc" w eq_refl eq_refl) as [H1 H2].
  split; [exact H1|]. rewrite H2. reflexivity.
Defined.

(** The whole of [uninstall] on that input: the entry is resolved, and
    nothing happens. *)
Example uninstall_on_backup_only :
  let w := Scenario.typing [] Scenario.only_backup in
  uninstall Scenario.HOME Scenario.no_glob
    (Scenario.profile [".vimrc"] false "link") w
  = Return tt w.
Proof. reflexivity. Qed.

(** ** The file action of backup *)

Lemma place_keeps_outside f q content x n :
  is_prefix q x = false -> f x = Some n -> Utils.place f q content x = Some n.
Proof.
  unfold Utils.place, is_prefix. intros Hout Hx.
  destruct (strip_prefix q x); [discriminate|].
  rewrite Hx. now destruct (strip_prefix x q).
Qed.

Lemma copy_fs_keeps_outside f src dst f' x n :
  Utils.copy_fs f src dst = Some f' ->
  is_prefix (lresolve f dst) x = false ->
  f x = Some n -> f' x = Some n.
Proof.
  unfold Utils.copy_fs. intros Hc Hout Hx.
  destruct (Utils.ancestors_ok f (lresolve f dst)); [|discriminate].
  destruct (stat f src) as [[d| | |]|]; try discriminate;
    injection Hc as <-; now apply place_keeps_outside.
Qed.

(** C6. [backup_file] under the ["link"] strategy is the three calls
    [utils.copy(home, mackup)], [utils.delete(home)],
    [utils.link(mackup, home)] in this order, and nothing else: when the
    copy and the link succeed the trace grows by exactly these calls and
    the file system is the linked one; a copy that fails ends it before
    anything is deleted.  Under the ["copy"] strategy it is the single
    call [utils.copy(home, mackup)]: no delete, no link, and every node
    outside the destination is as before. *)
Theorem backup_file_steps self h m w :
  (strategy self = "link" ->
   backup_file self h m w
   = (Utils.copy h m ;; Utils.delete h ;; Utils.link m h) w
   /\ (forall f1 f3,
         Utils.copy_fs (fs w) h m = Some f1 ->
         Utils.link_fs (Utils.delete_fs f1 h) m h = Some f3 ->
         backup_file self h m w
         = Return tt (mkWorld f3 (stdin w)
                        (trace w ++ [Copy h m; Delete h; Link m h])))
   /\ (Utils.copy_fs (fs w) h m = None ->
       backup_file self h m w
       = Raise (Failed (Copy h m))
           (mkWorld (fs w) (stdin w) (trace w ++ [Copy h m]))))
  /\
  (strategy self = "copy" ->
   backup_file self h m w = Utils.copy h m w
   /\ (forall f1,
         Utils.copy_fs (fs w) h m = Some f1 ->
         backup_file self h m w
         = Return tt (mkWorld f1 (stdin w) (trace w ++ [Copy h m]))
         /\ forall x n,
              is_prefix (lresolve (fs w) m) x = false ->
              fs w x = Some n -> f1 x = Some n)).
Proof.
  split; intros Hs; unfold backup_file; rewrite Hs; simpl.
  - split; [reflexivity|]. split.
    + intros f1 f3 Hc Hl.
      unfold Utils.copy, Utils.delete, Utils.link, set_fs. run_monad.
      rewrite Hc. simpl. rewrite Hl. simpl.
      now rewrite <- !app_assoc.
    + intros Hc. unfold Utils.copy. run_monad. now rewrite Hc.
  - split; [reflexivity|]. intros f1 Hc. split.
    + unfold Utils.copy, set_fs. run_monad. now rewrite Hc.
    + intros x n. now apply copy_fs_keeps_outside with (src := h).
Qed.

Lemma backup_file_steps_witness :
  let w := Scenario.typing [] Scenario.only_home in
  let linked := final (backup_file (Scenario.profile [".vimrc"] false "link")
                         Scenario.home_vimrc Scenario.shared_vimrc w) in
  let copied := final (backup_file (Scenario.profile [".vimrc"] false "copy")
                         Scenario.home_vimrc Scenario.shared_vimrc w) in
  (trace linked
   = [Copy Scenario.home_vimrc Scenario.shared_vimrc;
      Delete Scenario.home_vimrc;
      Link Scenario.shared_vimrc Scenario.home_vimrc]
   /\ fs linked Scenario.shared_vimrc = Some (File "A")
   /\ fs linked Scenario.home_vimrc = Some (Symlink Scenario.shared_vimrc))
  /\
  (trace copied = [Copy Scenario.home_vimrc Scenario.shared_vimrc]
   /\ fs copied Scenario.shared_vimrc = Some (File "A")
   /\ fs copied Scenario.home_vimrc = Some (File "A")).
Proof.
  intros w linked copied. split.
  - destruct (proj1 (backup_file_steps
                       (Scenario.profile [".vimrc"] false "link")
                       Scenario.home_vimrc Scenario.shared_vimrc w) eq_refl)
      as (_ & H & _).
    specialize (H _ _ eq_refl eq_refl).
    subst linked. rewrite H. repeat split.
  - destruct (proj2 (backup_file_steps
                       (Scenario.profile [".vimrc"] false "copy")
                       Scenario.home_vimrc Scenario.shared_vimrc w) eq_refl)
      as (_ & H).
    destruct (H _ eq_refl) as [H1 _].
    subst copied. rewrite H1. repeat split.
Defined.

(** ** A strategy that is neither ["link"] nor ["copy"] *)

Lemma strip_prefix_app base rest : strip_prefix base (base ++ rest) = Some rest.
Proof.
  induction base as [|b base IH]; simpl; [reflexivity|].
  now rewrite String.eqb_refl.
Qed.

Lemma strip_prefix_sound base p rest :
  strip_prefix base p = Some rest -> p = base ++ rest.
Proof.
  revert p. induction base as [|b base IH]; intros p H; simpl in *.
  - now injection H as ->.
  - destruct p as [|c p]; [discriminate|].
    destruct (String.eqb b c) eqn:E; [|discriminate].
    apply String.eqb_eq in E. subst c. f_equal. now apply IH.
Qed.

Lemma collect_error {A} (l : list (exn + list A)) e :
  collect l = inl e -> In (inl e) l.
Proof.
  induction l as [|[x|xs] l IH]; simpl; intros H.
  - discriminate.
  - injection H as ->. now left.
  - destruct (collect l); [|discriminate].
    injection H as ->. right. now apply IH.
Qed.

(** [get_files] can only raise on a pattern that [glob] refuses. *)
Lemma get_files_on_error glob self f source target e :
  get_files_on glob self f source target = inl e ->
  exists pattern, e = PatternError pattern.
Proof.
  unfold get_files_on. destruct (enable_glob self); [|discriminate].
  intros H. apply collect_error in H. apply in_map_iff in H.
  destruct H as (file_path & H & _).
  destruct (glob f source file_path) as [matches|].
  - apply collect_error in H. apply in_map_iff in H.
    destruct H as (rel & H & _). unfold glob_entry, relative_to in H.
    rewrite strip_prefix_app in H. discriminate.
  - injection H as <-. eauto.
Qed.

Lemma for_each_app {A} (body : A -> M unit) l1 l2 w :
  for_each body (l1 ++ l2) w
  = match for_each body l1 w with
    | Return _ w1 => for_each body l2 w1
    | Raise e w1 => Raise e w1
    end.
Proof.
  revert w. induction l1 as [|a l1 IH]; intros w; simpl; [reflexivity|].
  unfold bind. destruct (body a w) as [[] w'|e w']; [apply IH|reflexivity].
Qed.

Section FirstAction.

Variable acts : world -> entry -> bool.
Variable body : entry -> M unit.
Variable bad : exn.

Hypothesis acting_raises :
  forall w e, acts w e = true -> exists w', body e w = Raise bad w'.
Hypothesis quiet_does_not :
  forall w e, acts w e = false -> forall w', body e w <> Raise bad w'.

Lemma raised_at_first_acting before e after w w1 :
  for_each body before w = Return tt w1 ->
  acts w1 e = true ->
  exists w2, for_each body (before ++ e :: after) w = Raise bad w2.
Proof.
  intros Hbefore He. rewrite for_each_app, Hbefore. cbn [for_each].
  unfold bind. destruct (acting_raises _ _ He) as [w2 ->]. eauto.
Qed.

Lemma not_raised_when_none_acts entries w :
  some_entry_acts acts body entries w = false ->
  forall w2, for_each body entries w <> Raise bad w2.
Proof.
  revert w. induction entries as [|e rest IH]; intros w H w2; simpl in *.
  - discriminate.
  - destruct (acts w e) eqn:He; [discriminate|].
    unfold bind. pose proof (quiet_does_not _ _ He) as Hq.
    destruct (body e w) as [[] w'|x w'].
    + now apply IH.
    + intros E. injection E as -> ->. now apply (Hq w2).
Qed.

End FirstAction.

Lemma some_entry_acts_never acts body entries w :
  (forall w e, acts w e = false) ->
  some_entry_acts acts body entries w = false.
Proof.
  intros Hnever. revert w.
  induction entries as [|e rest IH]; intros w; simpl; [reflexivity|].
  rewrite Hnever. now destruct (body e w).
Qed.

Lemma backup_file_invalid self h m w :
  strategy self <> "link" -> strategy self <> "copy" ->
  backup_file self h m w = Raise (ValueError (invalid_strategy self)) w.
Proof.
  intros H1 H2. unfold backup_file.
  apply String.eqb_neq in H1, H2. now rewrite H1, H2.
Qed.

Lemma restore_file_invalid self m h w :
  strategy self <> "link" -> strategy self <> "copy" ->
  restore_file self m h w = Raise (ValueError (invalid_strategy self)) w.
Proof.
  intros H1 H2. unfold restore_file.
  apply String.eqb_neq in H1, H2. now rewrite H1, H2.
Qed.

Lemma samefile_error f a b e : samefile f a b = inl e -> exists msg, e = OSError msg.
Proof.
  unfold samefile. destruct (stat f a), (stat f b); intros H;
    try discriminate; injection H as <-; eauto.
Qed.

Lemma backup_guard_error f h m e :
  backup_guard f h m = inl e -> exists msg, e = OSError msg.
Proof.
  unfold backup_guard, already_backed_up.
  destruct (isfile f h || isdir f h); [|discriminate].
  destruct (islink f h && (isfile f m || isdir f m)); [|discriminate].
  destruct (samefile f h m) eqn:E; [|discriminate].
  intros H. injection H as <-. now apply samefile_error in E.
Qed.

Lemma restore_guard_error HOME can_sync self f m h e :
  restore_guard HOME can_sync f m h = inl e ->
  e <> ValueError (invalid_strategy self).
Proof.
  unfold restore_guard, pointing_to_mackup, supported.
  destruct (islink f h && exists_ f m).
  - destruct (samefile f m h) eqn:E.
    + intros H. injection H as <-. apply samefile_error in E.
      destruct E as [msg ->]. discriminate.
    + destruct (relative_to h HOME); intros H; [discriminate|].
      injection H as <-. unfold invalid_strategy, str. simpl. discriminate.
  - destruct (relative_to h HOME); intros H; [discriminate|].
    injection H as <-. unfold invalid_strategy, str. simpl. discriminate.
Qed.

Lemma backup_entry_acting self w e :
  strategy self <> "link" -> strategy self <> "copy" ->
  backup_acts self w e = true ->
  exists w', backup_entry self e w = Raise (ValueError (invalid_strategy self)) w'.
Proof.
  intros H1 H2. destruct e as [[h m] name]. unfold backup_acts, backup_entry.
  run_monad.
  destruct (backup_guard (fs w) h m) as [x|[|]]; try discriminate. simpl.
  destruct (dry_run self); [discriminate|]. simpl.
  destruct (exists_ (fs w) m).
  - destruct (file_type (fs w) m) as [kind|]; [|discriminate].
    intros Ha. rewrite confirm_accepted by exact Ha. simpl.
    unfold Utils.delete, set_fs. run_monad.
    rewrite backup_file_invalid by assumption. eauto.
  - intros _. rewrite backup_file_invalid by assumption. eauto.
Qed.

Lemma backup_entry_not_acting self w e :
  backup_acts self w e = false ->
  forall w', backup_entry self e w <> Raise (ValueError (invalid_strategy self)) w'.
Proof.
  destruct e as [[h m] name]. unfold backup_acts, backup_entry. run_monad.
  destruct (backup_guard (fs w) h m) as [x|[|]] eqn:Hg; simpl.
  - intros _ w' E. injection E as -> _.
    apply backup_guard_error in Hg. destruct Hg as [msg Hg]. discriminate.
  - destruct (dry_run self); simpl; [discriminate|].
    destruct (exists_ (fs w) m); [|discriminate].
    destruct (file_type (fs w) m) as [kind|].
    + intros Ha. rewrite confirm_declined by exact Ha. discriminate.
    + intros _ w' E. injection E as E _.
      unfold unsupported_file, invalid_strategy in E. discriminate.
  - intros _. destruct (verbose self); [|discriminate].
    destruct (exists_ (fs w) h); [|destruct (islink (fs w) h)]; discriminate.
Qed.

Lemma restore_entry_acting HOME can_sync self w e :
  strategy self <> "link" -> strategy self <> "copy" ->
  restore_acts HOME can_sync self w e = true ->
  exists w', restore_entry HOME can_sync self e w
             = Raise (ValueError (invalid_strategy self)) w'.
Proof.
  intros H1 H2. destruct e as [[m h] name]. unfold restore_acts, restore_entry.
  run_monad.
  destruct (restore_guard HOME can_sync (fs w) m h) as [x|[|]];
    try discriminate. simpl.
  destruct (dry_run self); [discriminate|]. simpl.
  destruct (exists_ (fs w) h).
  - destruct (file_type (fs w) h) as [kind|]; [|discriminate].
    intros Ha. rewrite confirm_accepted by exact Ha. simpl.
    unfold Utils.delete, set_fs. run_monad.
    rewrite restore_file_invalid by assumption. eauto.
  - intros _. rewrite restore_file_invalid by assumption. eauto.
Qed.

Lemma restore_entry_not_acting HOME can_sync self w e :
  restore_acts HOME can_sync self w e = false ->
  forall w', restore_entry HOME can_sync self e w
             <> Raise (ValueError (invalid_strategy self)) w'.
Proof.
  destruct e as [[m h] name]. unfold restore_acts, restore_entry. run_monad.
  destruct (restore_guard HOME can_sync (fs w) m h) as [x|[|]] eqn:Hg; simpl.
  - intros _ w' E. injection E as -> _.
    now apply (restore_guard_error _ _ self) in Hg.
  - destruct (dry_run self); simpl; [discriminate|].
    destruct (exists_ (fs w) h); [|discriminate].
    destruct (file_type (fs w) h) as [kind|].
    + intros Ha. rewrite confirm_declined by exact Ha. discriminate.
    + intros _ w' E. injection E as E _.
      unfold unsupported_file, invalid_strategy in E. discriminate.
  - intros _. destruct (verbose self); [|discriminate].
    destruct (exists_ (fs w) h); [|destruct (islink (fs w) h)]; discriminate.
Qed.

Lemma get_files_returns_or_refuses glob self source target w :
  (exists l, get_files glob self source target w = Return l w)
  \/ (exists pattern,
        get_files glob self source target w = Raise (PatternError pattern) w).
Proof.
  unfold get_files, bind, get_fs, lift.
  destruct (get_files_on glob self (fs w) source target) as [e|l] eqn:E.
  - right. apply get_files_on_error in E. destruct E as [pattern ->]. eauto.
  - left. eauto.
Qed.

(** C10. With a strategy that is neither ["link"] nor ["copy"]:
    [backup] and [restore] raise [ValueError("Invalid strategy ...")] at
    the first file that reaches [backup_file] or [restore_file], the
    files before it having been gone through without an exception; a run
    in which no file reaches its file action does not raise that error,
    and a dry run never does. *)
Theorem invalid_strategy_raised_at_first_action HOME glob can_sync self w :
  strategy self <> "link" ->
  strategy self <> "copy" ->
  let bad := ValueError (invalid_strategy self) in
  ((forall before e after w1,
      get_files glob self HOME (mackup_folder self) w
      = Return (before ++ e :: after) w ->
      for_each (backup_entry self) before w = Return tt w1 ->
      backup_acts self w1 e = true ->
      exists w2, backup HOME glob self w = Raise bad w2)
   /\ (forall entries,
         get_files glob self HOME (mackup_folder self) w = Return entries w ->
         some_entry_acts (backup_acts self) (backup_entry self) entries w
         = false ->
         forall w2, backup HOME glob self w <> Raise bad w2)
   /\ (dry_run self = true ->
       forall w2, backup HOME glob self w <> Raise bad w2))
  /\
  ((forall before e after w1,
      get_files glob self (mackup_folder self) HOME w
      = Return (before ++ e :: after) w ->
      for_each (restore_entry HOME can_sync self) before w = Return tt w1 ->
      restore_acts HOME can_sync self w1 e = true ->
      exists w2, restore HOME glob can_sync self w = Raise bad w2)
   /\ (forall entries,
         get_files glob self (mackup_folder self) HOME w = Return entries w ->
         some_entry_acts (restore_acts HOME can_sync self)
           (restore_entry HOME can_sync self) entries w = false ->
         forall w2, restore HOME glob can_sync self w <> Raise bad w2)
   /\ (dry_run self = true ->
       forall w2, restore HOME glob can_sync self w <> Raise bad w2)).
Proof.
  intros H1 H2 bad.
  assert (Hb_dry : dry_run self = true ->
                   forall w0 e, backup_acts self w0 e = false).
  { intros Hdry w0 [[h m] name]. unfold backup_acts. rewrite Hdry.
    now destruct (backup_guard (fs w0) h m) as [x|[|]]. }
  assert (Hr_dry : dry_run self = true ->
                   forall w0 e, restore_acts HOME can_sync self w0 e = false).
  { intros Hdry w0 [[m h] name]. unfold restore_acts. rewrite Hdry.
    now destruct (restore_guard HOME can_sync (fs w0) m h) as [x|[|]]. }
  split; (split; [|split]).
  - intros before e after w1 Hfiles Hbefore He.
    unfold backup, bind. rewrite Hfiles.
    apply raised_at_first_acting with (acts := backup_acts self) (w1 := w1);
      trivial.
    intros. now apply backup_entry_acting.
  - intros entries Hfiles Hnone w2.
    unfold backup, bind. rewrite Hfiles.
    apply not_raised_when_none_acts with (acts := backup_acts self); trivial.
    intros. now apply backup_entry_not_acting.
  - intros Hdry w2. unfold backup, bind.
    destruct (get_files_returns_or_refuses glob self HOME (mackup_folder self) w)
      as [[l ->]|[pattern ->]]; [|discriminate].
    apply not_raised_when_none_acts with (acts := backup_acts self).
    + intros. now apply backup_entry_not_acting.
    + apply some_entry_acts_never. now apply Hb_dry.
  - intros before e after w1 Hfiles Hbefore He.
    unfold restore, bind. rewrite Hfiles.
    apply raised_at_first_acting
      with (acts := restore_acts HOME can_sync self) (w1 := w1); trivial.
    intros. now apply restore_entry_acting.
  - intros entries Hfiles Hnone w2.
    unfold restore, bind. rewrite Hfiles.
    apply not_raised_when_none_acts
      with (acts := restore_acts HOME can_sync self); trivial.
    intros. now apply restore_entry_not_acting.
  - intros Hdry w2. unfold restore, bind.
    destruct (get_files_returns_or_refuses glob self (mackup_folder self) HOME w)
      as [[l ->]|[pattern ->]]; [|discriminate].
    apply not_raised_when_none_acts
      with (acts := restore_acts HOME can_sync self).
    + intros. now apply restore_entry_not_acting.
    + apply some_entry_acts_never. now apply Hr_dry.
Qed.

Lemma invalid_strategy_raised_at_first_action_witness :
  let self := Scenario.profile [".zshrc"; ".vimrc"] false "move" in
  (exists w2,
     backup Scenario.HOME Scenario.no_glob self
       (Scenario.typing [] Scenario.only_home)
     = Raise (ValueError "Invalid strategy move") w2)
  /\ (exists w2,
        restore Scenario.HOME Scenario.no_glob Scenario.everywhere self
          (Scenario.typing [] Scenario.only_backup)
        = Raise (ValueError "Invalid strategy move") w2)
  /\ (forall w2,
        backup Scenario.HOME Scenario.no_glob self
          (Scenario.typing [] Scenario.only_backup)
        <> Raise (ValueError "Invalid strategy move") w2).
Proof.
  intros self.
  assert (N1 : strategy self <> "link") by discriminate.
  assert (N2 : strategy self <> "copy") by discriminate.
  split; [|split].
  - destruct (invalid_strategy_raised_at_first_action Scenario.HOME
                Scenario.no_glob Scenario.everywhere self
                (Scenario.typing [] Scenario.only_home) N1 N2)
      as [(H & _ & _) _].
    exact (H [(["home"; "u"; ".zshrc"], ["shared"; "Mackup"; ".zshrc"],
               ".zshrc")]
             (Scenario.home_vimrc, Scenario.shared_vimrc, ".vimrc") []
             (Scenario.typing [] Scenario.only_home)
             eq_refl eq_refl eq_refl).
  - destruct (invalid_strategy_raised_at_first_action Scenario.HOME
                Scenario.no_glob Scenario.everywhere self
                (Scenario.typing [] Scenario.only_backup) N1 N2)
      as [_ (H & _ & _)].
    exact (H [(["shared"; "Mackup"; ".zshrc"], ["home"; "u"; ".zshrc"],
               ".zshrc")]
             (Scenario.shared_vimrc, Scenario.home_vimrc, ".vimrc") []
             (Scenario.typing [] Scenario.only_backup)
             eq_refl eq_refl eq_refl).
  - destruct (invalid_strategy_raised_at_first_action Scenario.HOME
                Scenario.no_glob Scenario.everywhere self
                (Scenario.typing [] Scenario.only_backup) N1 N2)
      as [(_ & H & _) _].
    exact (H _ eq_refl eq_refl).
Defined.

(** ** Prefixes *)

Lemma is_prefix_iff a b : is_prefix a b = true <-> exists r, b = a ++ r.
Proof.
  unfold is_prefix. split.
  - destruct (strip_prefix a b) as [r|] eqn:E; [|discriminate].
    intros _. exists r. now apply strip_prefix_sound.
  - intros [r ->]. now rewrite strip_prefix_app.
Qed.


Lemma is_prefix_trans a b c :
  is_prefix a b = true -> is_prefix b c = true -> is_prefix a c = true.
Proof.
  rewrite !is_prefix_iff. intros [r ->] [r' ->].
  exists (r ++ r'). now rewrite app_assoc.
Qed.

Lemma not_prefix_of_prefix q x p :
  is_prefix q p = false -> is_prefix x p = true -> is_prefix q x = false.
Proof.
  intros Hq Hx. destruct (is_prefix q x) eqn:E; [|reflexivity].
  now rewrite (is_prefix_trans _ _ _ E Hx) in Hq.
Qed.


Lemma removelast_prefix p : is_prefix (removelast p) p = true.
Proof.
  destruct p as [|c p]; [reflexivity|].
  apply is_prefix_iff. exists [last (c :: p) EmptyString].
  apply app_removelast_last. discriminate.
Qed.

(** ** Resolving paths without links *)

Lemma walk_plain f base rest :
  no_links_from f base rest = true -> walk f base rest = Done (base ++ rest).
Proof.
  revert base. induction rest as [|c rest IH]; intros base H; simpl in *.
  - now rewrite app_nil_r.
  - apply andb_prop in H. destruct H as [H Hrest].
    apply andb_prop in H. destruct H as [Hc Hl].
    apply negb_true_iff in Hc. rewrite Hc.
    rewrite (IH _ Hrest), <- app_assoc. simpl.
    now destruct (f (base ++ [c])) as [[d| |t|]|].
Qed.

Lemma resolve_plain f p : plain f p = true -> resolve f p = p.
Proof.
  intros H. unfold resolve, SYMLOOP_MAX. cbn [resolve_from].
  now rewrite (walk_plain f [] p H).
Qed.

Lemma no_links_from_app f base p q :
  no_links_from f base (p ++ q)
  = no_links_from f base p && no_links_from f (base ++ p) q.
Proof.
  revert base. induction p as [|c p IH]; intros base; simpl.
  - now rewrite app_nil_r.
  - rewrite IH, <- app_assoc. simpl. now rewrite !andb_assoc.
Qed.

Lemma plain_removelast f p : plain f p = true -> plain f (removelast p) = true.
Proof.
  destruct p as [|c p]; [trivial|]. intros H.
  rewrite (app_removelast_last EmptyString (l := c :: p)) in H by discriminate.
  unfold plain in *. rewrite no_links_from_app in H.
  now apply andb_prop in H.
Qed.

Lemma plain_last f p :
  p <> [] -> plain f p = true ->
  String.eqb (last p EmptyString) ".." = false /\ not_link (f p) = true.
Proof.
  intros Hne H.
  pose proof (app_removelast_last EmptyString Hne) as E.
  unfold plain in H. rewrite E, no_links_from_app in H. simpl in H.
  rewrite <- E in H.
  apply andb_prop in H. destruct H as [_ H].
  rewrite andb_true_r in H. apply andb_prop in H. destruct H as [H1 H2].
  now apply negb_true_iff in H1.
Qed.

Lemma lresolve_parent_plain f p :
  p <> [] -> plain f (removelast p) = true ->
  String.eqb (last p EmptyString) ".." = false -> lresolve f p = p.
Proof.
  intros Hne Hdir Hlast. unfold lresolve.
  destruct p as [|c p]; [congruence|].
  rewrite Hlast, (resolve_plain _ _ Hdir).
  symmetry. apply app_removelast_last. discriminate.
Qed.

Lemma lresolve_plain f p : plain f p = true -> lresolve f p = p.
Proof.
  intros H. destruct p as [|c p]; [reflexivity|].
  apply lresolve_parent_plain; [discriminate|now apply plain_removelast|].
  apply (plain_last f); [discriminate|exact H].
Qed.

Lemma lstat_plain f p : plain f p = true -> lstat f p = lookup f p.
Proof. intros H. unfold lstat. now rewrite lresolve_plain. Qed.

Lemma stat_plain f p : plain f p = true -> stat f p = lookup f p.
Proof.
  intros H. unfold stat. rewrite resolve_plain by exact H.
  destruct p as [|c p]; [reflexivity|].
  destruct (plain_last f (c :: p)) as [_ Hl]; [discriminate|exact H|].
  simpl in *. now destruct (f (c :: p)) as [[d| |t|]|].
Qed.

Lemma no_links_from_mono f f' base rest :
  (forall q, q <> [] -> is_prefix q rest = true ->
             not_link (f (base ++ q)) = true ->
             not_link (f' (base ++ q)) = true) ->
  no_links_from f base rest = true -> no_links_from f' base rest = true.
Proof.
  revert base. induction rest as [|c rest IH]; intros base Hq H; simpl in *.
  - reflexivity.
  - apply andb_prop in H. destruct H as [H Hrest].
    apply andb_prop in H. destruct H as [Hc Hl].
    rewrite Hc. simpl. rewrite (Hq [c]); trivial.
    + simpl. apply IH; [|exact Hrest].
      intros q Hne Hp. rewrite <- !app_assoc. simpl.
      apply Hq; [discriminate|].
      unfold is_prefix in *. simpl. now rewrite String.eqb_refl.
    + discriminate.
    + unfold is_prefix. simpl. now rewrite String.eqb_refl.
Qed.

Lemma plain_mono f f' p :
  (forall x, is_prefix x p = true ->
             not_link (f x) = true -> not_link (f' x) = true) ->
  plain f p = true -> plain f' p = true.
Proof.
  intros H. apply no_links_from_mono. intros q _ Hq. now apply H.
Qed.



(** ** [stat] and [lstat] away from links *)




(** ** What the file operations do to resolved paths *)

Lemma grows_outside_not_link q f f' x :
  grows_outside q f f' -> is_prefix q x = false ->
  not_link (f x) = true -> not_link (f' x) = true.
Proof.
  intros G Hx H. destruct (G x Hx) as [->|[_ ->]]; trivial.
Qed.


Lemma grows_outside_keeps q f f' x n :
  grows_outside q f f' -> is_prefix q x = false ->
  f x = Some n -> f' x = Some n.
Proof.
  intros G Hx H. destruct (G x Hx) as [->|[E _]]; congruence.
Qed.

Lemma grows_outside_plain q f f' p :
  grows_outside q f f' -> is_prefix q p = false ->
  plain f p = true -> plain f' p = true.
Proof.
  intros G Hq. apply plain_mono. intros x Hx.
  apply (grows_outside_not_link q); trivial.
  now apply not_prefix_of_prefix with (p := p).
Qed.

Lemma place_at f q content rest :
  Utils.place f q content (q ++ rest) = content rest.
Proof. unfold Utils.place. now rewrite strip_prefix_app. Qed.

Lemma place_at_self f q content : Utils.place f q content q = content [].
Proof.
  rewrite <- (app_nil_r q) at 2. apply place_at.
Qed.

Lemma place_grows f q content : grows_outside q f (Utils.place f q content).
Proof.
  intros x Hx. unfold Utils.place, is_prefix in *.
  destruct (strip_prefix q x); [discriminate|].
  destruct (strip_prefix x q); [|now left].
  destruct (f x); [now left|now right].
Qed.









(** Copying a file or a directory to a resolved path with nothing in
    the way. *)
Lemma copy_fs_creates f h m n :
  plain f m = true ->
  Utils.ancestors_ok f m = true ->
  stat f h = Some n ->
  (n = Dir \/ exists d, n = File d) ->
  exists f1,
    Utils.copy_fs f h m = Some f1
    /\ f1 m = Some n
    /\ grows_outside m f f1.
Proof.
  intros Hm Ha Hs Hn. unfold Utils.copy_fs.
  rewrite (lresolve_plain _ _ Hm), Ha, Hs.
  destruct Hn as [->|[d ->]]; eexists; (split; [reflexivity|]);
    (split; [apply place_at_self|apply place_grows]).
Qed.


Lemma is_prefix_antisym a b :
  is_prefix a b = true -> is_prefix b a = true -> a = b.
Proof.
  rewrite !is_prefix_iff. intros [r ->] [r' E].
  rewrite <- app_assoc in E. rewrite <- (app_nil_r a) in E at 1.
  apply app_inv_head in E. symmetry in E. apply app_eq_nil in E.
  destruct E as [-> _]. now rewrite app_nil_r.
Qed.

Lemma plain_after_place f f1 m :
  plain f m = true -> not_link (f1 m) = true -> grows_outside m f f1 ->
  plain f1 m = true.
Proof.
  intros Hm Hl G. revert Hm. apply plain_mono. intros x Hx Hnl.
  destruct (is_prefix m x) eqn:E.
  - now rewrite (is_prefix_antisym _ _ Hx E).
  - now apply (grows_outside_not_link m f).
Qed.

Lemma present_node f p :
  isfile f p || isdir f p = true ->
  exists n, stat f p = Some n /\ (n = Dir \/ exists d, n = File d).
Proof.
  unfold isfile, isdir. destruct (stat f p) as [[d| |t|]|]; try discriminate.
  - eauto.
  - eauto.
Qed.

Lemma present_kind f p n :
  stat f p = Some n -> (n = Dir \/ exists d, n = File d) ->
  exists_ f p = true
  /\ exists kind, file_type f p = Some kind.
Proof.
  intros Hs Hn. unfold exists_, file_type, isfile, isdir. rewrite Hs.
  destruct Hn as [->|[d ->]]; eauto.
Qed.

Lemma not_a_link f p n :
  plain f p = true -> stat f p = Some n -> islink f p = false.
Proof.
  intros Hp Hs. unfold islink. rewrite lstat_plain by exact Hp.
  rewrite stat_plain in Hs by exact Hp.
  destruct p as [|c p]; [reflexivity|].
  destruct (plain_last f (c :: p)) as [_ Hl]; [discriminate|exact Hp|].
  simpl in *. rewrite Hs in *. now destruct n.
Qed.





Lemma get_files_literal glob self f source target :
  enable_glob self = false ->
  get_files_on glob self f source target
  = inr (map (fun file_path =>
                (resolve f (joinpath source file_path),
                 resolve f (joinpath target file_path),
                 file_path))
             (configuration_files self)).
Proof. unfold get_files_on. now intros ->. Qed.

(** The entries of a profile that tracks one relative path, when the
    two paths it stands for are resolved paths. *)
Lemma get_files_one glob self file parts source target w :
  enable_glob self = false ->
  configuration_files self = [file] ->
  parse_path file = (false, parts) ->
  plain (fs w) (source ++ parts) = true ->
  plain (fs w) (target ++ parts) = true ->
  get_files glob self source target w
  = Return [(source ++ parts, target ++ parts, file)] w.
Proof.
  intros Hg Hf Hp Hs Ht. unfold get_files. run_monad.
  rewrite get_files_literal by exact Hg. rewrite Hf. simpl.
  unfold joinpath. rewrite Hp.
  now rewrite (resolve_plain _ _ Hs), (resolve_plain _ _ Ht).
Qed.

Lemma for_each_one {A} (body : A -> M unit) a w w' :
  body a w = Return tt w' -> for_each body [a] w = Return tt w'.
Proof. intros H. cbn [for_each]. unfold bind. now rewrite H. Qed.

Lemma backup_of_entries HOME glob self entries w :
  get_files glob self HOME (mackup_folder self) w = Return entries w ->
  backup HOME glob self w = for_each (backup_entry self) entries w.
Proof. intros H. unfold backup, bind. now rewrite H. Qed.


(** ** Backup, then restore into a fresh home *)



Lemma raised_final {A} (o : outcome A) e :
  raised o = Some e -> o = Raise e (final o).
Proof.
  destruct o as [a w|e' w]; simpl; [discriminate|].
  now intros [= ->].
Qed.

(** ** Backing up twice *)

Lemma trace_after_copy src dst w :
  trace (final (Utils.copy src dst w)) = trace w ++ [Copy src dst].
Proof.
  unfold Utils.copy, set_fs. run_monad.
  now destruct (Utils.copy_fs (fs w) src dst).
Qed.

(** One entry of [backup] under the ["copy"] strategy, for a file or a
    directory at a resolved home path, with nothing at the resolved
    path of the backup. *)
Lemma backup_entry_copies self h m name w :
  strategy self = "copy" -> dry_run self = false ->
  plain (fs w) h = true -> plain (fs w) m = true ->
  is_prefix m h = false ->
  isfile (fs w) h || isdir (fs w) h = true ->
  exists_ (fs w) m = false ->
  Utils.ancestors_ok (fs w) m = true ->
  exists f1 n,
    backup_entry self (h, m, name) w
    = Return tt
        (mkWorld f1 (stdin w)
           (trace w ++ [Output (backing_up_msg self (h, m, name)); Copy h m]))
    /\ plain f1 h = true /\ plain f1 m = true
    /\ stat f1 h = stat (fs w) h
    /\ stat f1 m = Some n /\ stat (fs w) h = Some n
    /\ (n = Dir \/ exists d, n = File d).
Proof.
  intros Hs Hdry Hh Hm Hmh Hpresent Habsent Ham.
  destruct (present_node _ _ Hpresent) as (n & Hn & Hkind).
  pose proof (not_a_link _ _ _ Hh Hn) as Hnl.
  destruct (copy_fs_creates _ h m n Hm Ham Hn Hkind) as (f1 & Hc & Hm1 & G1).
  assert (Hh1 : plain f1 h = true) by now apply (grows_outside_plain m (fs w)).
  assert (Hnot : not_link (f1 m) = true)
    by (rewrite Hm1; destruct Hkind as [->|[d ->]]; reflexivity).
  pose proof (plain_after_place _ _ _ Hm Hnot G1) as Hpm1.
  exists f1, n. repeat split; trivial.
  - unfold backup_entry, backup_guard, already_backed_up. run_monad.
    rewrite Hpresent, Hnl. simpl. rewrite Hdry, Habsent.
    unfold backup_file. rewrite Hs. simpl.
    unfold Utils.copy, set_fs. run_monad. rewrite Hc. simpl.
    now rewrite <- !app_assoc.
  - rewrite Hn. rewrite (stat_plain _ _ Hh) in Hn.
    rewrite (stat_plain _ _ Hh1).
    destruct h as [|c h]; [exact Hn|]. simpl in *.
    now apply (grows_outside_keeps m (fs w)).
  - rewrite (stat_plain _ _ Hpm1).
    destruct m as [|c m]; [discriminate|exact Hm1].
Qed.

(** One entry of [backup] when both copies are there: it is announced
    and a question is asked; "no" ends it there. *)
Lemma backup_entry_asks self h m name w n :
  dry_run self = false ->
  plain (fs w) h = true ->
  isfile (fs w) h || isdir (fs w) h = true ->
  stat (fs w) m = Some n -> (n = Dir \/ exists d, n = File d) ->
  exists kind,
    (hd false (stdin w) = false ->
     backup_entry self (h, m, name) w
     = Return tt
         (mkWorld (fs w) (tl (stdin w))
            (trace w ++ [Output (backing_up_msg self (h, m, name));
                         Confirm (backup_question kind m) false])))
    /\ (hd false (stdin w) = true -> strategy self = "copy" ->
        trace (final (backup_entry self (h, m, name) w))
        = trace w ++ [Output (backing_up_msg self (h, m, name));
                      Confirm (backup_question kind m) true;
                      Delete m; Copy h m]).
Proof.
  intros Hdry Hh Hpresent Hm Hkind.
  destruct (present_node _ _ Hpresent) as (n' & Hn & _).
  pose proof (not_a_link _ _ _ Hh Hn) as Hnl.
  destruct (present_kind _ _ _ Hm Hkind) as (Hex & kind & Hk).
  exists kind. split.
  - intros Ha. unfold backup_entry, backup_guard, already_backed_up.
    run_monad. rewrite Hpresent, Hnl. simpl. rewrite Hdry, Hex, Hk.
    rewrite confirm_declined by exact Ha. simpl.
    now rewrite <- !app_assoc.
  - intros Ha Hs. unfold backup_entry, backup_guard, already_backed_up.
    run_monad. rewrite Hpresent, Hnl. simpl. rewrite Hdry, Hex, Hk.
    rewrite confirm_accepted by exact Ha. simpl.
    unfold backup_file. rewrite Hs. simpl.
    unfold Utils.delete, set_fs. run_monad.
    match goal with
    | |- trace (final (Utils.copy ?a ?b ?w0)) = _ =>
        rewrite (trace_after_copy a b w0)
    end.
    simpl. now rewrite <- !app_assoc.
Qed.

Lemma trace_final_for_each_one {A} (body : A -> M unit) a w :
  trace (final (for_each body [a] w)) = trace (final (body a w)).
Proof.
  cbn [for_each]. unfold bind. now destruct (body a w) as [[] w'|e w'].
Qed.

(** C3, as the code has it under the ["copy"] strategy.  A profile
    tracks [file], a file or a directory at the resolved home path [h],
    with nothing at the resolved backup path [m].  The first [backup]
    makes the copy.  A second [backup] on the file system the first one
    left does not take the file as already backed up: it announces the
    backup again and asks whether the copy in the backup may be
    replaced; on "no" the file system is left as it is, on "yes" the
    copy is deleted and made again. *)
Theorem second_copy_backup_asks_again HOME glob self file parts w :
  strategy self = "copy" -> dry_run self = false ->
  enable_glob self = false ->
  configuration_files self = [file] ->
  parse_path file = (false, parts) ->
  let h := HOME ++ parts in
  let m := mackup_folder self ++ parts in
  plain (fs w) h = true -> plain (fs w) m = true ->
  is_prefix m h = false ->
  isfile (fs w) h || isdir (fs w) h = true ->
  exists_ (fs w) m = false ->
  Utils.ancestors_ok (fs w) m = true ->
  exists w1,
    backup HOME glob self w = Return tt w1
    /\ trace w1
       = trace w ++ [Output (backing_up_msg self (h, m, file)); Copy h m]
    /\ stat (fs w1) m = stat (fs w) h
    /\ forall w1',
         fs w1' = fs w1 ->
         exists kind,
           (hd false (stdin w1') = false ->
            backup HOME glob self w1'
            = Return tt
                (mkWorld (fs w1) (tl (stdin w1'))
                   (trace w1' ++ [Output (backing_up_msg self (h, m, file));
                                  Confirm (backup_question kind m) false])))
           /\ (hd false (stdin w1') = true ->
               trace (final (backup HOME glob self w1'))
               = trace w1' ++ [Output (backing_up_msg self (h, m, file));
                               Confirm (backup_question kind m) true;
                               Delete m; Copy h m]).
Proof.
  intros Hs Hdry Hg Hf Hp h m Hh Hm Hmh Hpresent Habsent Ham.
  destruct (backup_entry_copies self h m file w)
    as (f1 & n & Hb & Hh1 & Hm1 & Hsh & Hsm & Hn & Hkind); trivial.
  eexists. split; [|split; [|split]].
  - rewrite (backup_of_entries HOME glob self _ w
               (get_files_one glob self file parts HOME (mackup_folder self) w
                  Hg Hf Hp Hh Hm)).
    apply for_each_one. exact Hb.
  - reflexivity.
  - simpl. congruence.
  - simpl. intros w1' Hfs. rewrite <- Hfs in *.
    assert (Hpresent1 : isfile (fs w1') h || isdir (fs w1') h = true).
    { unfold isfile, isdir in *. now rewrite Hsh. }
    destruct (backup_entry_asks self h m file w1' n Hdry Hh1 Hpresent1 Hsm Hkind)
      as (kind & Hno & Hyes).
    pose proof (backup_of_entries HOME glob self _ w1'
                  (get_files_one glob self file parts HOME (mackup_folder self)
                     w1' Hg Hf Hp Hh1 Hm1)) as Hrun.
    exists kind. split.
    + intros Ha. rewrite Hrun. apply for_each_one. exact (Hno Ha).
    + intros Ha. rewrite Hrun.
      rewrite trace_final_for_each_one. exact (Hyes Ha Hs).
Qed.

Lemma second_copy_backup_asks_again_witness :
  let self := Scenario.profile [".vimrc"] false "copy" in
  exists w1,
    backup Scenario.HOME Scenario.no_glob self
      (Scenario.typing [] Scenario.only_home) = Return tt w1
    /\ trace w1
       = [Output "Backing up .vimrc ...";
          Copy Scenario.home_vimrc Scenario.shared_vimrc]
    /\ exists kind,
         backup Scenario.HOME Scenario.no_glob self
           (mkWorld (fs w1) [false] [])
         = Return tt
             (mkWorld (fs w1) []
                [Output "Backing up .vimrc ...";
                 Confirm (backup_question kind Scenario.shared_vimrc) false]).
Proof.
  intros self.
  destruct (second_copy_backup_asks_again Scenario.HOME Scenario.no_glob self
              ".vimrc" [".vimrc"] (Scenario.typing [] Scenario.only_home)
              eq_refl eq_refl eq_refl eq_refl eq_refl
              eq_refl eq_refl eq_refl eq_refl eq_refl eq_refl)
    as (w1 & Hb & Ht & _ & Hagain).
  exists w1. split; [exact Hb|]. split; [exact Ht|].
  destruct (Hagain (mkWorld (fs w1) [false] []) eq_refl) as (kind & Hno & _).
  exists kind. exact (Hno eq_refl).
Defined.

(** C3, as stated, fails under the ["copy"] strategy: the second run
    announces the backup again, asks a question, and on "yes" deletes
    the copy and makes it again; it does not report the file as already
    backed up. *)
Lemma second_copy_backup_is_not_a_no_op :
  let self := mkProfile Scenario.shared [".vimrc"] false false "copy" true in
  let w1 := final (backup Scenario.HOME Scenario.no_glob self
                     (Scenario.typing [] Scenario.only_home)) in
  let w2 := final (backup Scenario.HOME Scenario.no_glob self
                     (mkWorld (fs w1) [true] [])) in
  file_operations (trace w1) = [Copy Scenario.home_vimrc Scenario.shared_vimrc]
  /\ file_operations (trace w2)
     = [Delete Scenario.shared_vimrc;
        Copy Scenario.home_vimrc Scenario.shared_vimrc]
  /\ filter is_question (trace w2) <> []
  /\ ~ In (Output (already_backed_up_msg Scenario.home_vimrc
                    Scenario.shared_vimrc)) (trace w2).
Proof.
  vm_compute.
  split; [reflexivity|]. split; [reflexivity|]. split; [discriminate|].
  intuition discriminate.
Qed.

(** Under the ["link"] strategy the second run is no better: the home
    path is resolved through the link that the first run made, so the
    file is compared with itself; a question is asked, and on "yes" the
    only copy is deleted and the run fails. *)
Example second_link_backup_loses_the_file :
  let self := Scenario.profile [".vimrc"] false "link" in
  let w1 := final (backup Scenario.HOME Scenario.no_glob self
                     (Scenario.typing [] Scenario.only_home)) in
  let again := backup Scenario.HOME Scenario.no_glob self
                 (mkWorld (fs w1) [true] []) in
  fs w1 Scenario.home_vimrc = Some (Symlink Scenario.shared_vimrc)
  /\ fs w1 Scenario.shared_vimrc = Some (File "A")
  /\ (exists w2,
        again = Raise (Failed (Copy Scenario.shared_vimrc Scenario.shared_vimrc))
                  w2
        /\ file_operations (trace w2)
           = [Delete Scenario.shared_vimrc;
              Copy Scenario.shared_vimrc Scenario.shared_vimrc]
        /\ fs w2 Scenario.shared_vimrc = None).
Proof.
  intros self w1 again.
  split; [vm_compute; reflexivity|]. split; [vm_compute; reflexivity|].
  exists (final again).
  split; [apply raised_final; vm_compute; reflexivity|].
  split; vm_compute; reflexivity.
Qed.

(** After a ["link"] backup, [uninstall] resolves the home path through
    the link as well: what it deletes is the file in the backup, and
    the copy back then fails. *)
Example uninstall_after_link_backup_loses_the_file :
  let self := Scenario.profile [".vimrc"] false "link" in
  let w1 := final (backup Scenario.HOME Scenario.no_glob self
                     (Scenario.typing [] Scenario.only_home)) in
  exists w2,
    uninstall Scenario.HOME Scenario.no_glob self (mkWorld (fs w1) [] [])
    = Raise (Failed (Copy Scenario.shared_vimrc Scenario.shared_vimrc)) w2
    /\ file_operations (trace w2)
       = [Delete Scenario.shared_vimrc;
          Copy Scenario.shared_vimrc Scenario.shared_vimrc]
    /\ fs w2 Scenario.shared_vimrc = None.
Proof.
  intros self w1.
  exists (final (uninstall Scenario.HOME Scenario.no_glob self
                   (mkWorld (fs w1) [] []))).
  split; [apply raised_final; vm_compute; reflexivity|].
  split; vm_compute; reflexivity.
Qed.

(** ** The names [get_files] emits *)

Lemma collect_In {A} (l : list (exn + list A)) xs x :
  collect l = inr xs -> In x xs -> exists ys, In (inr ys) l /\ In x ys.
Proof.
  revert xs. induction l as [|[e|ys] l IH]; simpl; intros xs H Hx.
  - injection H as <-. destruct Hx.
  - discriminate.
  - destruct (collect l) as [e|zs]; [discriminate|].
    injection H as <-. apply in_app_or in Hx. destruct Hx as [Hx|Hx].
    + exists ys. auto.
    + destruct (IH zs eq_refl Hx) as (ys' & Hin & Hx'). exists ys'. auto.
Qed.




(** ** Restore when something is at the home path *)





(** * Further properties of the three operations *)

(** ** What a run adds to the trace *)

Lemma adds_only_refl allowed w : adds_only allowed w w.
Proof. exists []. split; [symmetry; apply app_nil_r|reflexivity]. Qed.

Lemma adds_only_trans allowed w1 w2 w3 :
  adds_only allowed w1 w2 -> adds_only allowed w2 w3 ->
  adds_only allowed w1 w3.
Proof.
  intros (a1 & E1 & H1) (a2 & E2 & H2). exists (a1 ++ a2). split.
  - now rewrite E2, E1, app_assoc.
  - now rewrite forallb_app, H1, H2.
Qed.

Lemma for_each_related {A} (R : world -> world -> Prop)
    (body : A -> M unit) (l : list A) :
  (forall w, R w w) ->
  (forall w1 w2 w3, R w1 w2 -> R w2 w3 -> R w1 w3) ->
  (forall a w, R w (final (body a w))) ->
  forall w, R w (final (for_each body l w)).
Proof.
  intros Hrefl Htrans Hbody. induction l as [|a l IH]; intros w; simpl.
  - apply Hrefl.
  - unfold bind. specialize (Hbody a w).
    destruct (body a w) as [[] w'|e w']; simpl in *; [|exact Hbody].
    eapply Htrans; [exact Hbody|apply IH].
Qed.

(** ** Uninstall asks nothing *)

Lemma uninstall_entry_quiet self e w :
  stdin (final (uninstall_entry self e w)) = stdin w
  /\ adds_only (fun ev => is_output ev || is_delete ev || is_copy ev)
       w (final (uninstall_entry self e w)).
Proof.
  destruct e as [[m h] name]. unfold uninstall_entry. unfold_utils.
  run_monad. split; split_cases; trivial; show_added.
Qed.

(** X1. [uninstall] never asks a question and never makes a link:
    whatever the profile and the world, the answers waiting on standard
    input are left unread, and the run adds nothing to the trace but
    printed lines and calls to [utils.delete] and [utils.copy]. *)
Theorem uninstall_asks_nothing HOME glob self w :
  stdin (final (uninstall HOME glob self w)) = stdin w
  /\ adds_only (fun ev => is_output ev || is_delete ev || is_copy ev)
       w (final (uninstall HOME glob self w)).
Proof.
  unfold uninstall, bind.
  destruct (get_files_keeps_world glob self (mackup_folder self) HOME w)
    as [[l ->]|[e ->]]; simpl.
  - apply (for_each_related
             (fun w1 w2 =>
                stdin w2 = stdin w1
                /\ adds_only (fun ev => is_output ev || is_delete ev || is_copy ev)
                     w1 w2)).
    + intros w0. split; [reflexivity|apply adds_only_refl].
    + intros w1 w2 w3 [S1 A1] [S2 A2]. split; [congruence|].
      now apply adds_only_trans with w2.
    + intros a w0. apply uninstall_entry_quiet.
  - split; [reflexivity|apply adds_only_refl].
Qed.

(** ** Deleting needs a yes *)

Lemma restore_entry_no_delete HOME can_sync self e w :
  all_no (stdin w) = true ->
  all_no (stdin (final (restore_entry HOME can_sync self e w))) = true
  /\ adds_only (fun ev => negb (is_delete ev))
       w (final (restore_entry HOME can_sync self e w)).
Proof.
  intros Hno. destruct e as [[m h] name].
  unfold restore_entry, restore_file. unfold_utils. run_monad.
  split; split_cases; use_answers Hno; try discriminate; trivial;
    show_added.
Qed.

Lemma loop_adds_only {A} allowed (body : A -> M unit) l :
  (forall a w, adds_only allowed w (final (body a w))) ->
  forall w, adds_only allowed w (final (for_each body l w)).
Proof.
  intros H. apply for_each_related; trivial.
  - apply adds_only_refl.
  - apply adds_only_trans.
Qed.

(** X2. [restore] deletes only after a yes: when every answer still to
    come is "no" (or no answer is left), a run of [restore] makes no
    call to [utils.delete], whatever the profile and the file system. *)
Theorem restore_without_yes_never_deletes HOME glob can_sync self w :
  all_no (stdin w) = true ->
  adds_only (fun ev => negb (is_delete ev))
    w (final (restore HOME glob can_sync self w)).
Proof.
  intros Hno. unfold restore, bind.
  destruct (get_files_keeps_world glob self (mackup_folder self) HOME w)
    as [[l ->]|[e ->]]; simpl; [|apply adds_only_refl].
  apply (for_each_related
           (fun w1 w2 =>
              all_no (stdin w1) = true ->
              all_no (stdin w2) = true
              /\ adds_only (fun ev => negb (is_delete ev)) w1 w2)
           (restore_entry HOME can_sync self) l); trivial.
  - intros w0 H0. split; [exact H0|apply adds_only_refl].
  - intros w1 w2 w3 H12 H23 H1. destruct (H12 H1) as [H2 A12].
    destruct (H23 H2) as [H3 A23]. split; [exact H3|].
    now apply adds_only_trans with w2.
  - intros a w0. apply restore_entry_no_delete.
Qed.

Lemma restore_without_yes_never_deletes_witness :
  let w := Scenario.typing [false] Scenario.both in
  adds_only (fun ev => negb (is_delete ev)) w
    (final (restore Scenario.HOME Scenario.no_glob Scenario.everywhere
              (Scenario.profile [".vimrc"] false "link") w)).
Proof.
  intros w.
  exact (restore_without_yes_never_deletes Scenario.HOME Scenario.no_glob
           Scenario.everywhere (Scenario.profile [".vimrc"] false "link")
           w eq_refl).
Defined.

(** ** What each strategy leaves alone *)

Lemma backup_entry_copy_strategy self e w :
  strategy self = "copy" ->
  adds_only (fun ev => negb (is_link_call ev)) w (final (backup_entry self e w))
  /\ (all_no (stdin w) = true ->
      all_no (stdin (final (backup_entry self e w))) = true
      /\ adds_only (fun ev => is_output ev || is_question ev || is_copy ev)
           w (final (backup_entry self e w))).
Proof.
  intros Hs. destruct e as [[h m] name].
  unfold backup_entry, backup_file. unfold_utils. run_monad.
  rewrite Hs. simpl. split; [|intros Hno; split];
    split_cases; try use_answers Hno; try discriminate; trivial; show_added.
Qed.

Lemma restore_entry_copy_strategy HOME can_sync self e w :
  strategy self = "copy" ->
  adds_only (fun ev => negb (is_link_call ev))
    w (final (restore_entry HOME can_sync self e w)).
Proof.
  intros Hs. destruct e as [[m h] name].
  unfold restore_entry, restore_file. unfold_utils. run_monad.
  rewrite Hs. simpl. split_cases; show_added.
Qed.

Lemma restore_entry_link_strategy HOME can_sync self e w :
  strategy self = "link" ->
  adds_only (fun ev => negb (is_copy ev))
    w (final (restore_entry HOME can_sync self e w)).
Proof.
  intros Hs. destruct e as [[m h] name].
  unfold restore_entry, restore_file. unfold_utils. run_monad.
  rewrite Hs. simpl. split_cases; show_added.
Qed.

(** X3. The strategies keep to their own operation: with ["copy"],
    neither [backup] nor [restore] ever calls [utils.link], so no link
    is made in the home or in the backup; with ["link"], [restore]
    never calls [utils.copy]. *)
Theorem strategies_keep_to_their_operation HOME glob can_sync self w :
  (strategy self = "copy" ->
   adds_only (fun ev => negb (is_link_call ev))
     w (final (backup HOME glob self w))
   /\ adds_only (fun ev => negb (is_link_call ev))
        w (final (restore HOME glob can_sync self w)))
  /\ (strategy self = "link" ->
      adds_only (fun ev => negb (is_copy ev))
        w (final (restore HOME glob can_sync self w))).
Proof.
  split; [intros Hs; split|intros Hs].
  - unfold backup, bind.
    destruct (get_files_keeps_world glob self HOME (mackup_folder self) w)
      as [[l ->]|[e ->]]; simpl; [|apply adds_only_refl].
    apply loop_adds_only. intros a w0.
    now apply backup_entry_copy_strategy.
  - unfold restore, bind.
    destruct (get_files_keeps_world glob self (mackup_folder self) HOME w)
      as [[l ->]|[e ->]]; simpl; [|apply adds_only_refl].
    apply loop_adds_only. intros a w0.
    now apply restore_entry_copy_strategy.
  - unfold restore, bind.
    destruct (get_files_keeps_world glob self (mackup_folder self) HOME w)
      as [[l ->]|[e ->]]; simpl; [|apply adds_only_refl].
    apply loop_adds_only. intros a w0.
    now apply restore_entry_link_strategy.
Qed.

Lemma strategies_keep_to_their_operation_witness :
  let w := Scenario.typing [true] Scenario.both in
  adds_only (fun ev => negb (is_link_call ev)) w
    (final (backup Scenario.HOME Scenario.no_glob
              (Scenario.profile [".vimrc"] false "copy") w))
  /\ adds_only (fun ev => negb (is_copy ev)) w
       (final (restore Scenario.HOME Scenario.no_glob Scenario.everywhere
                 (Scenario.profile [".vimrc"] false "link") w)).
Proof.
  intros w. split.
  - exact (proj1 (proj1 (strategies_keep_to_their_operation Scenario.HOME
                           Scenario.no_glob Scenario.everywhere
                           (Scenario.profile [".vimrc"] false "copy") w)
                    eq_refl)).
  - exact (proj2 (strategies_keep_to_their_operation Scenario.HOME
                    Scenario.no_glob Scenario.everywhere
                    (Scenario.profile [".vimrc"] false "link") w) eq_refl).
Defined.

(** X4. Under the ["copy"] strategy, and as long as the user does not
    answer yes, [backup] only ever copies: nothing is deleted, no link
    is made, in the home or in the backup. *)
Theorem copy_backup_without_yes_only_copies HOME glob self w :
  strategy self = "copy" ->
  all_no (stdin w) = true ->
  adds_only (fun ev => is_output ev || is_question ev || is_copy ev)
    w (final (backup HOME glob self w)).
Proof.
  intros Hs Hno. unfold backup, bind.
  destruct (get_files_keeps_world glob self HOME (mackup_folder self) w)
    as [[l ->]|[e ->]]; simpl; [|apply adds_only_refl].
  apply (for_each_related
           (fun w1 w2 =>
              all_no (stdin w1) = true ->
              all_no (stdin w2) = true
              /\ adds_only (fun ev => is_output ev || is_question ev || is_copy ev)
                   w1 w2)
           (backup_entry self) l); trivial.
  - intros w0 H0. split; [exact H0|apply adds_only_refl].
  - intros w1 w2 w3 H12 H23 H1. destruct (H12 H1) as [H2 A12].
    destruct (H23 H2) as [H3 A23]. split; [exact H3|].
    now apply adds_only_trans with w2.
  - intros a w0. now apply backup_entry_copy_strategy.
Qed.

Lemma copy_backup_without_yes_only_copies_witness :
  let w := Scenario.typing [] Scenario.both in
  adds_only (fun ev => is_output ev || is_question ev || is_copy ev) w
    (final (backup Scenario.HOME Scenario.no_glob
              (Scenario.profile [".vimrc"] false "copy") w)).
Proof.
  intros w.
  exact (copy_backup_without_yes_only_copies Scenario.HOME Scenario.no_glob
           (Scenario.profile [".vimrc"] false "copy") w eq_refl eq_refl).
Defined.

(** ** Uninstall puts a plain copy back *)


Lemma exists_node f p : exists_ f p = true -> exists n, stat f p = Some n.
Proof.
  unfold exists_. destruct (stat f p) as [n|]; [eauto|discriminate].
Qed.






(** ** Backup by copy, then uninstall *)




(** ** Restore by copy *)



(** ** Files that are skipped *)

Lemma restore_entry_unsupported HOME can_sync self e w :
  (forall rel, can_sync rel = false) ->
  fs (final (restore_entry HOME can_sync self e w)) = fs w
  /\ stdin (final (restore_entry HOME can_sync self e w)) = stdin w
  /\ adds_only is_output w (final (restore_entry HOME can_sync self e w)).
Proof.
  intros Hno. destruct e as [[m h] name].
  unfold restore_entry, restore_guard, supported. run_monad.
  destruct (pointing_to_mackup (fs w) m h) as [x|b]; simpl.
  - repeat split. apply adds_only_refl.
  - destruct (relative_to h HOME) as [rel|]; simpl.
    + rewrite Hno, andb_false_r. simpl.
      repeat split; split_cases; trivial; show_added.
    + repeat split. apply adds_only_refl.
Qed.

(** X8. A path that the platform does not support is left alone: when
    [can_file_be_synced_on_current_platform] rejects every path,
    [restore] changes nothing in the file system, calls no file
    operation, asks nothing and reads no answer; all it may do is
    print. *)
Theorem restore_leaves_unsupported_paths_alone HOME glob can_sync self w :
  (forall rel, can_sync rel = false) ->
  fs (final (restore HOME glob can_sync self w)) = fs w
  /\ stdin (final (restore HOME glob can_sync self w)) = stdin w
  /\ adds_only is_output w (final (restore HOME glob can_sync self w)).
Proof.
  intros Hno. unfold restore, bind.
  destruct (get_files_keeps_world glob self (mackup_folder self) HOME w)
    as [[l ->]|[e ->]]; simpl.
  - apply (for_each_related
             (fun w1 w2 =>
                fs w2 = fs w1 /\ stdin w2 = stdin w1
                /\ adds_only is_output w1 w2)).
    + intros w0. repeat split. apply adds_only_refl.
    + intros w1 w2 w3 (F1 & S1 & A1) (F2 & S2 & A2).
      repeat split; try congruence. now apply adds_only_trans with w2.
    + intros a w0. now apply restore_entry_unsupported.
  - repeat split. apply adds_only_refl.
Qed.

Lemma restore_leaves_unsupported_paths_alone_witness :
  let w := Scenario.typing [true] Scenario.both in
  fs (final (restore Scenario.HOME Scenario.no_glob (fun _ => false)
               (Scenario.profile [".vimrc"] false "link") w)) = fs w
  /\ stdin (final (restore Scenario.HOME Scenario.no_glob (fun _ => false)
                     (Scenario.profile [".vimrc"] false "link") w)) = [true].
Proof.
  intros w.
  destruct (restore_leaves_unsupported_paths_alone Scenario.HOME
              Scenario.no_glob (fun _ => false)
              (Scenario.profile [".vimrc"] false "link") w
              (fun _ => eq_refl)) as (H1 & H2 & _).
  split; assumption.
Defined.

Lemma backup_entry_absent self e w :
  isfile (fs w) (fst (fst e)) || isdir (fs w) (fst (fst e)) = false ->
  exists w',
    backup_entry self e w = Return tt w'
    /\ fs w' = fs w /\ stdin w' = stdin w
    /\ adds_only is_output w w'
    /\ (verbose self = false -> w' = w).
Proof.
  destruct e as [[h m] name]. simpl. intros Habsent.
  unfold backup_entry, backup_guard. run_monad. rewrite Habsent. simpl.
  destruct (verbose self).
  - destruct (exists_ (fs w) h); [|destruct (islink (fs w) h)];
      eexists; (split; [reflexivity|]); repeat split; try discriminate;
      show_added.
  - exists w. repeat split. apply adds_only_refl.
Qed.

(** X9. Tracked files that are not in the home are passed over: when
    no home path of the entries is a file or a directory, [backup] ends
    normally, changes nothing in the file system, calls no file
    operation, asks nothing and reads no answer; without [verbose] it
    does not even print. *)
Theorem backup_passes_over_missing_files HOME glob self entries w :
  get_files glob self HOME (mackup_folder self) w = Return entries w ->
  Forall (fun e : entry =>
            isfile (fs w) (fst (fst e)) || isdir (fs w) (fst (fst e)) = false)
         entries ->
  exists w',
    backup HOME glob self w = Return tt w'
    /\ fs w' = fs w /\ stdin w' = stdin w
    /\ adds_only is_output w w'
    /\ (verbose self = false -> w' = w).
Proof.
  intros Hfiles Hall. rewrite (backup_of_entries _ _ _ _ _ Hfiles).
  clear Hfiles. revert w Hall.
  induction entries as [|e rest IH]; intros w Hall.
  - exists w. repeat split. apply adds_only_refl.
  - inversion Hall as [|e' rest' He Hrest]; subst.
    destruct (backup_entry_absent self e w He)
      as (w1 & Hb & Hf1 & Hs1 & Ha1 & Hq1).
    rewrite <- Hf1 in Hrest.
    destruct (IH w1 Hrest) as (w2 & Hl & Hf2 & Hs2 & Ha2 & Hq2).
    exists w2. split; [|repeat split].
    + cbn [for_each]. unfold bind. now rewrite Hb.
    + congruence.
    + congruence.
    + now apply adds_only_trans with w1.
    + intros Hv. rewrite (Hq2 Hv). now apply Hq1.
Qed.

Lemma backup_passes_over_missing_files_witness :
  let self := Scenario.profile [".vimrc"; ".zshrc"] false "link" in
  let w := Scenario.typing [true] Scenario.only_backup in
  backup Scenario.HOME Scenario.no_glob self w = Return tt w.
Proof.
  intros self w.
  destruct (backup_passes_over_missing_files Scenario.HOME Scenario.no_glob
              self
              [(Scenario.home_vimrc, Scenario.shared_vimrc, ".vimrc");
               (["home"; "u"; ".zshrc"], ["shared"; "Mackup"; ".zshrc"],
                ".zshrc")]
              w eq_refl)
    as (w' & Hb & _ & _ & _ & Hq).
  - repeat constructor.
  - rewrite Hb. now rewrite (Hq eq_refl).
Defined.

(** ** A home path that leaves the home *)



(** ** The paths [get_files] emits *)

Lemma get_files_on_entries glob self f source target entries e :
  get_files_on glob self f source target = inr entries ->
  In e entries ->
  exists p q,
    fst (fst e) = resolve f p /\ snd (fst e) = resolve f q
    /\ (enable_glob self = false ->
        p = joinpath source (snd e) /\ q = joinpath target (snd e)
        /\ In (snd e) (configuration_files self)).
Proof.
  unfold get_files_on. destruct (enable_glob self) eqn:Hg; intros H He.
  - destruct (collect_In _ _ _ H He) as (ys & Hys & Hey).
    apply in_map_iff in Hys. destruct Hys as (file_path & Hys & _).
    destruct (glob f source file_path) as [matches|]; [|discriminate].
    destruct (collect_In _ _ _ Hys Hey) as (zs & Hzs & Hez).
    apply in_map_iff in Hzs. destruct Hzs as (rel & Hzs & _).
    unfold glob_entry, relative_to in Hzs. rewrite strip_prefix_app in Hzs.
    injection Hzs as <-. destruct Hez as [<-|[]].
    exists (source ++ rel), (target ++ rel). repeat split; discriminate.
  - injection H as <-. apply in_map_iff in He.
    destruct He as (file_path & <- & Hin). simpl.
    exists (joinpath source file_path), (joinpath target file_path).
    repeat split; trivial.
Qed.

(** X11. A configured path that is absolute takes the place of both
    roots: without globbing, the triple [get_files] emits for it has the
    same path as source and as target, whatever the two roots are. *)
Theorem absolute_path_ignores_both_roots glob self f source target entries e :
  enable_glob self = false ->
  get_files_on glob self f source target = inr entries ->
  In e entries ->
  is_absolute (snd e) = true ->
  fst (fst e) = snd (fst e)
  /\ fst (fst e) = resolve f (snd (parse_path (snd e))).
Proof.
  intros Hg H He Habs.
  destruct (get_files_on_entries _ _ _ _ _ _ _ H He) as (p & q & Hp & Hq & Hlit).
  destruct (Hlit Hg) as (-> & -> & _).
  unfold joinpath, parse_path in *. cbv beta iota zeta in *.
  rewrite Habs in *. split; [exact (eq_trans Hp (eq_sym Hq))|exact Hp].
Qed.

Lemma absolute_path_ignores_both_roots_witness :
  let self := Scenario.profile ["/etc/vimrc"] false "link" in
  let e : entry := (["etc"; "vimrc"], ["etc"; "vimrc"], "/etc/vimrc") in
  get_files_on Scenario.no_glob self Scenario.linked_outside
    Scenario.HOME Scenario.shared = inr [e]
  /\ fst (fst e) = snd (fst e).
Proof.
  intros self e.
  assert (H : get_files_on Scenario.no_glob self Scenario.linked_outside
                Scenario.HOME Scenario.shared = inr [e])
    by (vm_compute; reflexivity).
  split; [exact H|].
  exact (proj1 (absolute_path_ignores_both_roots Scenario.no_glob self
                  Scenario.linked_outside Scenario.HOME Scenario.shared
                  [e] e eq_refl H (or_introl eq_refl) eq_refl)).
Defined.

(** ** Resolved paths are not links *)

Lemma walk_done_plain f resolved rest r :
  plain f resolved = true -> walk f resolved rest = Done r ->
  plain f r = true.
Proof.
  revert resolved. induction rest as [|c rest IH]; intros resolved Hp; simpl.
  - now intros [= <-].
  - destruct (String.eqb c "..") eqn:Hc.
    + apply IH. now apply plain_removelast.
    + destruct (f (resolved ++ [c])) as [[d| |t|]|] eqn:Hn;
        try discriminate; apply IH; unfold plain in *;
        rewrite no_links_from_app, Hp; simpl; now rewrite Hc, Hn.
Qed.

Lemma resolves_within_plain f n resolved rest :
  plain f resolved = true ->
  resolves_within n f resolved rest = true ->
  plain f (resolve_from n f resolved rest) = true.
Proof.
  revert resolved rest. induction n as [|n IH]; intros resolved rest Hp;
    cbn [resolves_within resolve_from];
    destruct (walk f resolved rest) as [r|l t rest'] eqn:Hw;
    try discriminate; intros H.
  - now apply (walk_done_plain f resolved rest).
  - now apply (walk_done_plain f resolved rest).
  - now apply IH.
Qed.

Lemma resolvable_not_link f p : resolvable f p = true -> islink f (resolve f p) = false.
Proof.
  intros H. apply (resolves_within_plain f SYMLOOP_MAX [] p eq_refl) in H.
  fold (resolve f p) in H.
  unfold islink. rewrite (lstat_plain _ _ H).
  destruct (resolve f p) as [|c r] eqn:E; [reflexivity|].
  destruct (plain_last f (c :: r)) as [_ Hl]; [discriminate|exact H|].
  simpl in *. now destruct (f (c :: r)) as [[d| |t|]|].
Qed.

(** X12. The paths [get_files] emits are resolved, so they are not
    links: each emitted path is [resolve] of the path joined from its
    root, and unless that one ran into a loop of links the emitted path
    is not a link.  For [backup] this means that the test "already a
    link pointing to Mackup" is false for every emitted entry: the
    condition of its [if] is just "the home path is a file or a
    directory".  For [restore] it means that "pointing to mackup" is
    false for every emitted entry. *)
Theorem emitted_paths_are_not_links glob self f source target entries e :
  get_files_on glob self f source target = inr entries ->
  In e entries ->
  exists p q,
    fst (fst e) = resolve f p /\ snd (fst e) = resolve f q
    /\ (enable_glob self = false ->
        p = joinpath source (snd e) /\ q = joinpath target (snd e))
    /\ (resolvable f p = true ->
        islink f (fst (fst e)) = false
        /\ backup_guard f (fst (fst e)) (snd (fst e))
           = inr (isfile f (fst (fst e)) || isdir f (fst (fst e))))
    /\ (resolvable f q = true ->
        islink f (snd (fst e)) = false
        /\ pointing_to_mackup f (fst (fst e)) (snd (fst e)) = inr false).
Proof.
  intros H He.
  destruct (get_files_on_entries _ _ _ _ _ _ _ H He) as (p & q & Hp & Hq & Hlit).
  exists p, q. split; [exact Hp|]. split; [exact Hq|].
  split; [intros Hg; destruct (Hlit Hg) as (E1 & E2 & _); now split|].
  split; intros Hr.
  - assert (Hnl : islink f (fst (fst e)) = false)
      by (rewrite Hp; now apply resolvable_not_link).
    split; [exact Hnl|].
    unfold backup_guard, already_backed_up. rewrite Hnl. simpl.
    now destruct (isfile f (fst (fst e)) || isdir f (fst (fst e))).
  - assert (Hnl : islink f (snd (fst e)) = false)
      by (rewrite Hq; now apply resolvable_not_link).
    split; [exact Hnl|].
    unfold pointing_to_mackup. now rewrite Hnl.
Qed.

Lemma emitted_paths_are_not_links_witness :
  let self := Scenario.profile [".vimrc"] false "link" in
  let e : entry := (Scenario.shared_vimrc, Scenario.shared_vimrc, ".vimrc") in
  get_files_on Scenario.no_glob self Scenario.linked
    Scenario.HOME Scenario.shared = inr [e]
  /\ islink Scenario.linked Scenario.home_vimrc = true
  /\ islink Scenario.linked (fst (fst e)) = false
  /\ backup_guard Scenario.linked (fst (fst e)) (snd (fst e)) = inr true.
Proof.
  intros self e.
  assert (H : get_files_on Scenario.no_glob self Scenario.linked
                Scenario.HOME Scenario.shared = inr [e])
    by (vm_compute; reflexivity).
  split; [exact H|]. split; [vm_compute; reflexivity|].
  destruct (emitted_paths_are_not_links Scenario.no_glob self Scenario.linked
              Scenario.HOME Scenario.shared [e] e H (or_introl eq_refl))
    as (p & q & _ & _ & Hlit & Hb & _).
  destruct (Hlit eq_refl) as [-> _].
  destruct (Hb eq_refl) as [Hnl Hguard].
  split; [exact Hnl|]. rewrite Hguard. vm_compute. reflexivity.
Defined.

(** ** What a dry run prints *)

Lemma backing_up_msg_dry b self e :
  backing_up_msg (with_dry_run b self) e = backing_up_msg self e.
Proof. now destruct e as [[h m] name]. Qed.

Lemma restoring_msg_dry b self e :
  restoring_msg (with_dry_run b self) e = restoring_msg self e.
Proof. now destruct e as [[m h] name]. Qed.

Lemma reverting_msg_dry b self e :
  reverting_msg (with_dry_run b self) e = reverting_msg self e.
Proof. now destruct e as [[m h] name]. Qed.

(** X13. A dry run announces what the run would: for one and the same
    file in one and the same world, the lines printed by the loop body
    of [backup], of [restore] and of [uninstall] with [dry_run] set are
    the lines printed without it, whatever the strategy, the answers
    and the outcome of the file operations. *)
Theorem dry_run_prints_what_a_run_prints HOME can_sync self e w :
  printed (trace (final (backup_entry (with_dry_run true self) e w)))
  = printed (trace (final (backup_entry (with_dry_run false self) e w)))
  /\ printed (trace (final (restore_entry HOME can_sync
                              (with_dry_run true self) e w)))
     = printed (trace (final (restore_entry HOME can_sync
                                (with_dry_run false self) e w)))
  /\ printed (trace (final (uninstall_entry (with_dry_run true self) e w)))
     = printed (trace (final (uninstall_entry (with_dry_run false self) e w))).
Proof.
  split; [|split].
  - unfold backup_entry. rewrite !backing_up_msg_dry.
    destruct e as [[h m] name]. unfold backup_file. unfold_utils.
    run_monad. same_printed.
  - unfold restore_entry. rewrite !restoring_msg_dry.
    destruct e as [[m h] name]. unfold restore_file. unfold_utils.
    run_monad. same_printed.
  - unfold uninstall_entry. rewrite !reverting_msg_dry.
    destruct e as [[m h] name]. unfold_utils. run_monad. same_printed.
Qed.

(** ** What [verbose] changes *)

Lemma invalid_strategy_verbose b self :
  invalid_strategy (with_verbose b self) = invalid_strategy self.
Proof. reflexivity. Qed.

Lemma backup_entry_verbose self e w w' :
  same_actions w w' ->
  same_outcome (backup_entry (with_verbose true self) e w)
    (backup_entry (with_verbose false self) e w').
Proof.
  destruct w' as [f' s' t']. intros (Hf & Hs & Ht). simpl in *. subst f' s'.
  destruct e as [[h m] name]. unfold same_outcome, backup_entry, backup_file.
  rewrite !invalid_strategy_verbose. unfold_utils. run_monad.
  same_acted Ht.
Qed.

Lemma restore_entry_verbose HOME can_sync self e w w' :
  same_actions w w' ->
  same_outcome (restore_entry HOME can_sync (with_verbose true self) e w)
    (restore_entry HOME can_sync (with_verbose false self) e w').
Proof.
  destruct w' as [f' s' t']. intros (Hf & Hs & Ht). simpl in *. subst f' s'.
  destruct e as [[m h] name]. unfold same_outcome, restore_entry, restore_file.
  rewrite !invalid_strategy_verbose. unfold_utils. run_monad.
  same_acted Ht.
Qed.

Lemma uninstall_entry_verbose self e w w' :
  same_actions w w' ->
  same_outcome (uninstall_entry (with_verbose true self) e w)
    (uninstall_entry (with_verbose false self) e w').
Proof.
  destruct w' as [f' s' t']. intros (Hf & Hs & Ht). simpl in *. subst f' s'.
  destruct e as [[m h] name]. unfold same_outcome, uninstall_entry.
  unfold_utils. run_monad.
  same_acted Ht.
Qed.

Lemma same_actions_refl w : same_actions w w.
Proof. repeat split. Qed.

Lemma for_each_same_outcome (body body' : entry -> M unit) entries :
  (forall e w w', same_actions w w' -> same_outcome (body e w) (body' e w')) ->
  forall w w', same_actions w w' ->
               same_outcome (for_each body entries w)
                 (for_each body' entries w').
Proof.
  intros Hbody. induction entries as [|e rest IH]; intros w w' Hw.
  - exact Hw.
  - cbn [for_each]. unfold bind. specialize (Hbody e w w' Hw).
    destruct (body e w) as [[] w1|x w1], (body' e w') as [[] w1'|x' w1'];
      simpl in Hbody; try contradiction.
    + now apply IH.
    + exact Hbody.
Qed.

Lemma get_files_verbose glob b self source target w :
  get_files glob (with_verbose b self) source target w
  = get_files glob self source target w.
Proof. reflexivity. Qed.

(** X14. [verbose] changes what is printed and nothing else: from the
    same world, [backup], [restore] and [uninstall] with and without
    [verbose] end the same way (normally, or on the same exception),
    with the same file system, the same answers read, and the same
    questions and file operations in the same order. *)
Theorem verbose_changes_only_what_is_printed HOME glob can_sync self w :
  same_outcome (backup HOME glob (with_verbose true self) w)
    (backup HOME glob (with_verbose false self) w)
  /\ same_outcome (restore HOME glob can_sync (with_verbose true self) w)
       (restore HOME glob can_sync (with_verbose false self) w)
  /\ same_outcome (uninstall HOME glob (with_verbose true self) w)
       (uninstall HOME glob (with_verbose false self) w).
Proof.
  split; [|split].
  - unfold backup, bind. rewrite !get_files_verbose. simpl.
    destruct (get_files_keeps_world glob self HOME (mackup_folder self) w)
      as [[l ->]|[e ->]]; simpl.
    + apply for_each_same_outcome; [|apply same_actions_refl].
      intros e w1 w2. apply backup_entry_verbose.
    + split; [reflexivity|apply same_actions_refl].
  - unfold restore, bind. rewrite !get_files_verbose. simpl.
    destruct (get_files_keeps_world glob self (mackup_folder self) HOME w)
      as [[l ->]|[e ->]]; simpl.
    + apply for_each_same_outcome; [|apply same_actions_refl].
      intros e w1 w2. apply restore_entry_verbose.
    + split; [reflexivity|apply same_actions_refl].
  - unfold uninstall, bind. rewrite !get_files_verbose. simpl.
    destruct (get_files_keeps_world glob self (mackup_folder self) HOME w)
      as [[l ->]|[e ->]]; simpl.
    + apply for_each_same_outcome; [|apply same_actions_refl].
      intros e w1 w2. apply uninstall_entry_verbose.
    + split; [reflexivity|apply same_actions_refl].
Qed.

(** ** A pattern that [glob] refuses *)




